(** * BleFinder: the BLE device-management hook and its presentation helpers

    A shallow embedding of [src/hooks/useBleManager.ts] (the hook that owns
    the device registry and the connection life cycle), of [getBatteryLevel]
    in [App.tsx] and of the text helpers of [DeviceItem.tsx].

    The hook is a bundle of callbacks over six React state cells.  A callback
    never reads a state cell directly: it reads the constants that the render
    in which it was created bound ([useCallback] with its dependency list),
    and it writes through the setters.  The embedding keeps that split:
    a callback that reads state takes the [HookState] of its render as the
    argument [closure], a [World] holds the live cells, and every callback
    is a computation in a small state monad over [World] that logs each
    setter call and each call into the BLE stack in program order, with
    the instant at which it happens.  In that monad a callback runs to its
    end before the next one starts.  Handlers that start while another
    awaits a promise are modelled on top of it, by merging the timed logs
    of the runs (section Handlers that overlap). *)

From Stdlib Require Import Ascii ZArith QArith Qabs Qround Lqa.
From stdpp Require Import base list strings gmap pretty.

Local Open Scope string_scope.
Local Open Scope list_scope.
Local Open Scope Z_scope.

(** ** Data model (the parts of react-native-ble-plx's objects the code reads) *)

Record Device := mkDevice {
  dev_id : string;
  dev_name : option string;          (* string | null *)
  dev_rssi : option Z;               (* number | null *)
  dev_txPowerLevel : option Z        (* number | null *)
}.

Record Characteristic := mkCharacteristic {
  chr_uuid : string;
  chr_value : option string          (* string | null *)
}.

(** Two services of one peripheral may carry the same UUID; [svc_handle]
    tells the objects apart. *)
Record Service := mkService {
  svc_handle : nat;
  svc_uuid : string
}.

Record DeviceDetails := mkDeviceDetails {
  services : list Service;
  characteristics : option (gmap string (list Characteristic))
}.

(** JavaScript truthiness of a [string | null] value: null and the empty
    string are falsy. *)
Definition truthy (s : option string) : bool :=
  match s with
  | None => false
  | Some EmptyString => false
  | Some (String _ _) => true
  end.

(** ** Hook state *)

Record HookState := mkHookState {
  devices : list Device;
  connectedDevice : option Device;
  deviceDetails : option DeviceDetails;
  isConnecting : bool;
  shouldReconnect : bool;
  reconnectAttempts : nat
}.

(** The state of the first render: the arguments of the [useState] calls. *)
Definition initialState : HookState :=
  mkHookState [] None None false true 0.

Definition MAX_RECONNECT_ATTEMPTS : nat := 3.

(** [Array.prototype.findIndex]: the index of the first match, or -1. *)
Fixpoint findIndex {A : Type} (p : A -> bool) (l : list A) : Z :=
  match l with
  | [] => -1
  | x :: rest =>
      if p x then 0
      else let i := findIndex p rest in
           if i =? -1 then -1 else i + 1
  end.

Definition isDuplicate (devices : list Device) (nextDevice : Device) : bool :=
  -1 <? findIndex (fun device => String.eqb (dev_id nextDevice) (dev_id device)) devices.

(** ** Effects

    Everything a callback does to the outside: a setter call, a call into
    the BLE stack, a timer, a console message. *)

Inductive Effect :=
| SetDevices (ds : list Device)            (* setDevices(ds) *)
| AppendDevice (d : Device)                (* setDevices(prev => ...) of the scan callback *)
| SetConnectedDevice (d : option Device)
| SetDeviceDetails (d : option DeviceDetails)
| SetIsConnecting (b : bool)
| SetShouldReconnect (b : bool)
| SetReconnectAttempts (n : nat)           (* setReconnectAttempts(n) *)
| IncReconnectAttempts                     (* setReconnectAttempts(prev => prev + 1) *)
| StartDeviceScan
| StopDeviceScan
| BleConnectToDevice (deviceId : string)
| DiscoverAllServicesAndCharacteristics (d : Device)
| DeviceServices (d : Device)
| ServiceCharacteristics (s : Service)
| CancelDeviceConnection (deviceId : string)
| SetTimeout (deviceId : string) (attempts : nat) (ms : nat)
                                           (* setTimeout(() => connectToDevice(deviceId, attempts), ms) *)
| ConsoleError (msg : string).

(** What a setter call does to the state cells; the other effects leave
    them alone. *)
Definition applyEffect (e : Effect) (s : HookState) : HookState :=
  match e with
  | SetDevices ds =>
      mkHookState ds (connectedDevice s) (deviceDetails s) (isConnecting s)
                  (shouldReconnect s) (reconnectAttempts s)
  | AppendDevice device =>
      let prevState := devices s in
      mkHookState (if negb (isDuplicate prevState device)
                   then prevState ++ [device] else prevState)
                  (connectedDevice s) (deviceDetails s) (isConnecting s)
                  (shouldReconnect s) (reconnectAttempts s)
  | SetConnectedDevice d =>
      mkHookState (devices s) d (deviceDetails s) (isConnecting s)
                  (shouldReconnect s) (reconnectAttempts s)
  | SetDeviceDetails d =>
      mkHookState (devices s) (connectedDevice s) d (isConnecting s)
                  (shouldReconnect s) (reconnectAttempts s)
  | SetIsConnecting b =>
      mkHookState (devices s) (connectedDevice s) (deviceDetails s) b
                  (shouldReconnect s) (reconnectAttempts s)
  | SetShouldReconnect b =>
      mkHookState (devices s) (connectedDevice s) (deviceDetails s) (isConnecting s)
                  b (reconnectAttempts s)
  | SetReconnectAttempts n =>
      mkHookState (devices s) (connectedDevice s) (deviceDetails s) (isConnecting s)
                  (shouldReconnect s) n
  | IncReconnectAttempts =>
      mkHookState (devices s) (connectedDevice s) (deviceDetails s) (isConnecting s)
                  (shouldReconnect s) (reconnectAttempts s + 1)%nat
  | _ => s
  end.

(** ** The world and the monad of callbacks *)

(** [now] is the clock in milliseconds, [timers] the pending [setTimeout]
    callbacks with the instant they are due, [log] every effect so far with
    the instant it happened, oldest first. *)
Record World := mkWorld {
  hook : HookState;
  now : nat;
  timers : list (nat * (string * nat));
  log : list (nat * Effect)
}.

Definition M (A : Type) : Type := World -> A * World.

#[global] Instance M_ret : MRet M := fun A (a : A) (w : World) => (a, w).

#[global] Instance M_bind : MBind M :=
  fun A B (k : A -> M B) (m : M A) (w : World) => let (a, w') := m w in k a w'.

Definition exec {A : Type} (m : M A) (w : World) : World := snd (m w).

(** A setter call, or a synchronous call into the BLE stack. *)
Definition act (e : Effect) : M unit :=
  fun w => (tt, mkWorld (applyEffect e (hook w)) (now w) (timers w)
                        (log w ++ [(now w, e)])).

Definition getNow : M nat := fun w => (now w, w).

(** Time passing while a promise is awaited. *)
Definition sleep (ms : nat) : M unit :=
  fun w => (tt, mkWorld (hook w) (now w + ms)%nat (timers w) (log w)).

(** [await e result latency]: the asynchronous call [e] is issued now; it
    settles [latency] ms later with [result], both read from the BLE stack
    at the instant of the call. *)
Definition await {A : Type} (e : Effect) (result : nat -> A) (latency : nat -> nat) : M A :=
  act e ;;
  t ← getNow;
  sleep (latency t) ;;
  mret (result t).

(** [setTimeout(() => connectToDevice(deviceId, attempts), ms)]. *)
Definition setTimeout (deviceId : string) (attempts : nat) (ms : nat) : M unit :=
  fun w => (tt, mkWorld (hook w) (now w)
                        (timers w ++ [((now w + ms)%nat, (deviceId, attempts))])
                        (log w ++ [(now w, SetTimeout deviceId attempts ms)])).

Definition consoleError (msg : string) : M unit := act (ConsoleError msg).

(** [try { body } catch { handler } finally { finalizer }]: [body] returns
    [false] when one of its awaited promises rejected, at which point the
    rest of the block was skipped. *)
Definition tryCatchFinally (body : M bool) (handler finalizer : M unit) : M unit :=
  completed ← body;
  (if completed : bool then mret tt else handler) ;;
  finalizer.

Fixpoint foldM {A B : Type} (f : B -> A -> M B) (b : B) (l : list A) : M B :=
  match l with
  | [] => mret b
  | x :: rest => b' ← f b x; foldM f b' rest
  end.

Fixpoint forEach {A : Type} (f : A -> M unit) (l : list A) : M unit :=
  match l with
  | [] => mret tt
  | x :: rest => f x ;; forEach f rest
  end.

(** ** The BLE stack

    The third-party stack is the environment.  Each promise it returns is
    described by what it settles with and how long it takes, as functions
    of the instant of the call: [None] and [false] are rejections. *)
Record BleStack := mkBleStack {
  connect_result : string -> nat -> option Device;
  connect_latency : string -> nat -> nat;
  discover_result : Device -> nat -> bool;
  discover_latency : Device -> nat -> nat;
  services_result : Device -> nat -> option (list Service);
  services_latency : Device -> nat -> nat;
  characteristics_result : Service -> nat -> option (list Characteristic);
  characteristics_latency : Service -> nat -> nat;
  cancel_result : string -> nat -> bool;
  cancel_latency : string -> nat -> nat
}.

(** [Promise.all] over promises started together: the continuations run in
    the order in which the promises settle, promises that settle at the same
    instant in the order in which they were started. *)
Fixpoint insertSettled (latency : Service -> nat) (s : Service) (l : list Service)
  : list Service :=
  match l with
  | [] => [s]
  | x :: rest =>
      if (latency s <? latency x)%nat then s :: x :: rest
      else x :: insertSettled latency s rest
  end.

Definition settleOrder (latency : Service -> nat) (l : list Service) : list Service :=
  foldl (fun settled s => insertSettled latency s settled) [] l.

Definition waitUntil (t : nat) : M unit :=
  fun w => (tt, mkWorld (hook w) (Nat.max (now w) t) (timers w) (log w)).

Section Hook.

Variable ble : BleStack.

(** *** scanDevices and the listener it hands to startDeviceScan *)

Definition scanDevices : M unit :=
  act (SetDevices []) ;;
  act (SetConnectedDevice None) ;;
  act (SetDeviceDetails None) ;;
  act StartDeviceScan.

Definition scanListener (error : option string) (device : option Device) : M unit :=
  match error with
  | Some e => consoleError e
  | None =>
      match device with
      | Some device =>
          if truthy (dev_name device) then act (AppendDevice device) else mret tt
      | None => mret tt
      end
  end.

(** *** getServicesAndCharacteristics *)

(** The body of the [services.map] callback once its promise has settled. *)
Definition settleService (t : nat) (characteristicsByServiceUUID : gmap string (list Characteristic))
    (service : Service) : M (gmap string (list Characteristic)) :=
  waitUntil (t + characteristics_latency ble service t)%nat ;;
  match characteristics_result ble service t with
  | Some characteristics =>
      mret (<[svc_uuid service := characteristics]> characteristicsByServiceUUID)
  | None =>
      consoleError ("Failed to get characteristics for service " +:+ svc_uuid service) ;;
      mret (<[svc_uuid service := []]> characteristicsByServiceUUID)
  end.

Definition getServicesAndCharacteristics (device : Device) : M unit :=
  r ← await (DeviceServices device) (services_result ble device) (services_latency ble device);
  match r with
  | Some services =>
      t ← getNow;
      forEach (fun service => act (ServiceCharacteristics service)) services ;;
      characteristicsByServiceUUID ←
        foldM (settleService t) ∅
              (settleOrder (fun service => characteristics_latency ble service t) services);
      act (SetDeviceDetails (Some (mkDeviceDetails services (Some characteristicsByServiceUUID))))
  | None => consoleError "Failed to get services and characteristics:"
  end.

(** *** connectToDevice *)

Definition connectToDevice (deviceId : string) (attempts : nat) : M unit :=
  tryCatchFinally
    (act (SetIsConnecting true) ;;
     r ← await (BleConnectToDevice deviceId)
               (connect_result ble deviceId) (connect_latency ble deviceId);
     match r with
     | None => mret false
     | Some device =>
         discovered ← await (DiscoverAllServicesAndCharacteristics device)
                            (discover_result ble device) (discover_latency ble device);
         if discovered : bool then
           act (SetConnectedDevice (Some device)) ;;
           act StopDeviceScan ;;
           getServicesAndCharacteristics device ;;
           act (SetReconnectAttempts 0) ;;
           mret true
         else mret false
     end)
    (consoleError "Failed to connect" ;;
     if (attempts <? MAX_RECONNECT_ATTEMPTS - 1)%nat
     then setTimeout deviceId (attempts + 1) 2000
     else mret tt)
    (act (SetIsConnecting false)).

(** *** handleDisconnect

    [closure] is the state of the render that created the callback: its
    dependency list names [reconnectAttempts] and [shouldReconnect], which
    it reads as constants. *)
Definition handleDisconnect (closure : HookState) (deviceId : string) : M unit :=
  act (SetConnectedDevice None) ;;
  act (SetDeviceDetails None) ;;
  cancelled ← await (CancelDeviceConnection deviceId)
                    (cancel_result ble deviceId) (cancel_latency ble deviceId);
  if cancelled : bool then
    if shouldReconnect closure
       && (reconnectAttempts closure <? MAX_RECONNECT_ATTEMPTS)%nat
    then act IncReconnectAttempts ;; setTimeout deviceId 0 2000
    else mret tt
  else consoleError "Failed to disconnect".

(** The listener of [bleManager.onDeviceDisconnected], subscribed by the
    effect while a device is connected. *)
Definition onDeviceDisconnected (closure : HookState)
    (error : option string) (device : option Device) : M unit :=
  match error with
  | Some e => consoleError ("Disconnected " +:+ e)
  | None =>
      match device with
      | Some device => handleDisconnect closure (dev_id device)
      | None => mret tt
      end
  end.

(** *** switchToDevice

    Its dependency list names [connectedDevice] and [handleDisconnect], so
    the [handleDisconnect] it calls was created by the same render. *)
Definition switchToDevice (closure : HookState) (deviceId : string) : M unit :=
  act (SetShouldReconnect false) ;;
  match connectedDevice closure with
  | Some connected =>
      handleDisconnect closure (dev_id connected) ;;
      connectToDevice deviceId 0
  | None => connectToDevice deviceId 0
  end ;;
  act (SetShouldReconnect true).

(** *** The timer queue *)

Fixpoint earliestFrom (best bestDue i : nat) (ts : list (nat * (string * nat))) : nat :=
  match ts with
  | [] => best
  | (due, _) :: rest =>
      if (due <? bestDue)%nat then earliestFrom i due (S i) rest
      else earliestFrom best bestDue (S i) rest
  end.

(** The index of the timer that fires next: the earliest due, the first
    registered among equals. *)
Definition earliest (ts : list (nat * (string * nat))) : nat :=
  match ts with
  | [] => 0%nat
  | (due, _) :: rest => earliestFrom 0 due 1 rest
  end.

(** The earliest pending timer fires, on a world in which no callback is
    in flight: the clock moves to the instant the timer is due if that is
    still ahead.  A timer that comes due while a callback awaits is the
    matter of [withTimers] below. *)
Definition fireTimer (w : World) : option World :=
  let i := earliest (timers w) in
  match timers w !! i with
  | None => None
  | Some (due, (deviceId, attempts)) =>
      Some (exec (connectToDevice deviceId attempts)
                 (mkWorld (hook w) (Nat.max (now w) due) (delete i (timers w)) (log w)))
  end.

Fixpoint runTimers (fuel : nat) (w : World) : World :=
  match fuel with
  | O => w
  | S fuel' =>
      match fireTimer w with
      | None => w
      | Some w' => runTimers fuel' w'
      end
  end.

End Hook.

(** ** Presentation helpers *)

(** A JavaScript number as far as the battery reading goes: [parseInt]
    yields an integer or NaN; -0 is 0.  [Num z] is the double the source
    has when the magnitude of [z] is below 2^53, where a double holds every
    integer.  From 2^53 on the source rounds [z] to a double (and to
    Infinity beyond the range of doubles), which [Num z] does not follow:
    the statements about readings are made for magnitudes below 2^53. *)
Inductive number :=
| NaN
| Num (z : Z).

(** The ASCII members of the white space [parseInt] skips. *)
Definition isWhiteSpace (c : Ascii.ascii) : bool :=
  let n := Ascii.nat_of_ascii c in
  (n =? 32)%nat || ((9 <=? n)%nat && (n <=? 13)%nat).

Fixpoint trimStart (s : string) : string :=
  match s with
  | String c rest => if isWhiteSpace c then trimStart rest else s
  | EmptyString => s
  end.

Definition hexDigit (c : Ascii.ascii) : option Z :=
  let n := Z.of_nat (Ascii.nat_of_ascii c) in
  if (48 <=? n) && (n <=? 57) then Some (n - 48)          (* 0-9 *)
  else if (97 <=? n) && (n <=? 102) then Some (n - 87)    (* a-f *)
  else if (65 <=? n) && (n <=? 70) then Some (n - 55)     (* A-F *)
  else None.

(** The value of the longest prefix of hexadecimal digits, [None] when the
    string does not start with one. *)
Fixpoint hexPrefix (acc : option Z) (s : string) : option Z :=
  match s with
  | String c rest =>
      match hexDigit c with
      | Some d => hexPrefix (Some (16 * default 0 acc + d)) rest
      | None => acc
      end
  | EmptyString => acc
  end.

Definition stripHexMarker (s : string) : string :=
  match s with
  | String "0"%char (String "x"%char rest) => rest
  | String "0"%char (String "X"%char rest) => rest
  | _ => s
  end.

(** [parseInt(s, 16)]. *)
Definition parseInt16 (s : string) : number :=
  let s := trimStart s in
  let sign := match s with String "-"%char _ => -1 | _ => 1 end in
  let s := match s with
           | String "-"%char rest => rest
           | String "+"%char rest => rest
           | _ => s
           end in
  match hexPrefix None (stripHexMarker s) with
  | None => NaN
  | Some mathInt => Num (sign * mathInt)
  end.

(** [getBatteryLevel] of App.tsx; [None] is [undefined]. *)
Definition getBatteryLevel (deviceDetails : option DeviceDetails) : option number :=
  match deviceDetails with
  | Some details =>
      match characteristics details with
      | Some characteristics =>
          match characteristics !! "180F" with
          | Some batteryCharacteristics =>
              match List.find (fun char => String.eqb (chr_uuid char) "2A19")
                              batteryCharacteristics with
              | Some batteryCharacteristic =>
                  if truthy (chr_value batteryCharacteristic)
                  then Some (parseInt16 (default EmptyString (chr_value batteryCharacteristic)))
                  else None
              | None => None
              end
          | None => None
          end
      | None => None
      end
  | None => None
  end.

(** The [batteryLevel] prop that [renderItem] hands to a list item. *)
Definition itemBatteryLevel (s : HookState) (item : Device) : option number :=
  match connectedDevice s with
  | Some connected =>
      if String.eqb (dev_id connected) (dev_id item)
      then getBatteryLevel (deviceDetails s)
      else None
  | None => None
  end.

(** Truthiness of a [number | undefined]: undefined, NaN and 0 are falsy. *)
Definition numberTruthy (n : option number) : bool :=
  match n with
  | Some (Num z) => negb (z =? 0)
  | _ => false
  end.

(** The digits a template literal prints for a number: below 2^53 (indeed
    below 10^21) the source prints every digit of the integer, as here;
    from 10^21 on it prints exponent notation, and Infinity beyond the
    range of doubles, which is not followed. *)
Definition numberToString (n : number) : string :=
  match n with
  | NaN => "NaN"
  | Num z => pretty z
  end.

(** The text after [Battery:] in a list item:
    [batteryLevel ? `${batteryLevel}%` : 'NA']. *)
Definition batteryText (batteryLevel : option number) : string :=
  if numberTruthy batteryLevel
  then match batteryLevel with
       | Some n => numberToString n +:+ "%"
       | None => "NA"
       end
  else "NA".

(** *** Distance estimate of DeviceItem.tsx

    The stack reports [rssi] and [txPowerLevel] in whole dBm, so the inputs
    are integers.  The arithmetic is carried out on exact rationals extended
    with NaN and the infinities, where the source computes on doubles: a
    result may differ from the source's in the last printed digit, never in
    which branch is taken at an exactly representable ratio. *)
Inductive extnum :=
| FNaN
| FInf (negative : bool)
| FFin (q : Q).

(** [a / b] on integers; the divisor 0 is +0. *)
Definition divide (a b : Z) : extnum :=
  if b =? 0 then (if a =? 0 then FNaN else FInf (a <? 0))
  else FFin (inject_Z a / inject_Z b)%Q.

Definition lessThan (x : extnum) (y : Q) : bool :=
  match x with
  | FNaN => false
  | FInf negative => negative
  | FFin q => negb (Qle_bool y q)
  end.

Definition greaterThan (x : extnum) (y : Q) : bool :=
  match x with
  | FNaN => false
  | FInf negative => negb negative
  | FFin q => negb (Qle_bool q y)
  end.

(** [Math.pow(x, 10)]. *)
Definition pow10 (x : extnum) : extnum :=
  match x with
  | FNaN => FNaN
  | FInf _ => FInf false
  | FFin q => FFin (q ^ 10)%Q
  end.

Definition twoDigits (n : Z) : string :=
  if n <? 10 then "0" +:+ pretty n else pretty n.

(** [x.toFixed(2)]: the nearest multiple of 1/100, the larger one at a tie,
    printed with two decimals.  (From 10^21 on the source switches to
    exponent notation; ratios of in-range integer readings stay below.) *)
Definition toFixed2 (x : extnum) : string :=
  match x with
  | FNaN => "NaN"
  | FInf negative => if negative then "-Infinity" else "Infinity"
  | FFin q =>
      let n := Qfloor (Qabs q * 100 + (1 # 2))%Q in
      (if negb (Qle_bool 0 q) then "-" else EmptyString)
      +:+ pretty (n / 100) +:+ "." +:+ twoDigits (n mod 100)
  end.

Definition decDigit (c : Ascii.ascii) : option Z :=
  let n := Z.of_nat (Ascii.nat_of_ascii c) in
  if (48 <=? n) && (n <=? 57) then Some (n - 48) else None.

(** Reads a run of decimal digits: its value, its length, what follows. *)
Fixpoint readDigits (acc : Z) (len : nat) (s : string) : Z * nat * string :=
  match s with
  | String c rest =>
      match decDigit c with
      | Some d => readDigits (10 * acc + d) (S len) rest
      | None => (acc, len, s)
      end
  | EmptyString => (acc, len, s)
  end.

(** [parseFloat] on what [toFixed] prints: a sign, then [Infinity] or
    digits with an optional fraction (an exponent part is not read). *)
Definition parseFloat (s : string) : extnum :=
  let s := trimStart s in
  let negative := match s with String "-"%char _ => true | _ => false end in
  let s := match s with
           | String "-"%char rest => rest
           | String "+"%char rest => rest
           | _ => s
           end in
  if String.prefix "Infinity" s then FInf negative
  else
    let '(whole, wholeLen, rest) := readDigits 0 0 s in
    let '(frac, fracLen, _) :=
      match rest with
      | String "."%char rest' => readDigits 0 0 rest'
      | _ => (0, 0%nat, rest)
      end in
    if (wholeLen + fracLen =? 0)%nat then FNaN
    else
      let magnitude := (inject_Z whole + inject_Z frac / inject_Z (10 ^ Z.of_nat fracLen))%Q in
      FFin (if negative then - magnitude else magnitude)%Q.

Definition getRssiLabel (rssi : option Z) : string :=
  match rssi with
  | None => "Unknown"
  | Some rssi =>
      if -60 <=? rssi then "Strong"
      else if -80 <=? rssi then "Medium"
      else "Weak"
  end.

Section Distance.

(** [Math.pow(x, 7.7095)] on a finite [x]: a floating-point library
    function, left as a parameter. *)
Variable pow_7_7095 : Q -> Q.

(** [0.89976 * Math.pow(ratio, 7.7095) + 0.111]. *)
Definition powerLaw (ratio : extnum) : extnum :=
  match ratio with
  | FNaN => FNaN
  | FInf _ => FInf false
  | FFin q => FFin ((89976 # 100000) * pow_7_7095 q + (111 # 1000))%Q
  end.

Definition calculateDistance (rssi txPower : option Z) : string :=
  match rssi with
  | None => "Unknown"
  | Some rssi =>
      if rssi =? 0 then "Unknown"
      else
        let defaultTxPower := -59 in
        let actualTxPower := default defaultTxPower txPower in
        if (rssi <? -100) || (rssi >? 0) then "Unknown"
        else
          let ratio := divide rssi actualTxPower in
          if lessThan ratio 1 then toFixed2 (pow10 ratio) +:+ " m"
          else
            let distance := toFixed2 (powerLaw ratio) in
            if greaterThan (parseFloat distance) 1000 then "Unknown"
            else distance +:+ " m"
  end.

End Distance.

(** ** Vocabulary of the statements *)

(** The state cells after a run of effects, and the states passed through on
    the way (one per effect, in order). *)
Definition replay (s : HookState) (es : list Effect) : HookState :=
  foldl (fun s e => applyEffect e s) s es.


(** The advertisement events of a scan, in the order of delivery: the two
    arguments the stack passes to the listener. *)
Definition deliver (events : list (option string * option Device)) : M unit :=
  forEach (fun ev => scanListener ev.1 ev.2) events.

(** The named devices among the events, in the order of delivery. *)
Definition discovered (events : list (option string * option Device)) : list Device :=
  omap (fun ev =>
          match ev with
          | (None, Some device) => if truthy (dev_name device) then Some device else None
          | _ => None
          end) events.

(** The first advertisement of every identifier, in the order of first
    appearance; [seen] are the identifiers met so far. *)
Fixpoint firstSeen (seen : gset string) (ds : list Device) : list Device :=
  match ds with
  | [] => []
  | d :: rest =>
      if decide (dev_id d ∈ seen) then firstSeen seen rest
      else d :: firstSeen ({[dev_id d]} ∪ seen) rest
  end.

Definition lookupById (id : string) (l : list Device) : option Device :=
  List.find (fun d => String.eqb id (dev_id d)) l.

(** The effects logged between two worlds. *)
Definition since (w w' : World) : list (nat * Effect) :=
  drop (length (log w)) (log w').

(** [emits P m]: whatever the world, [m] only appends to the log, every
    effect it appends satisfies [P], and the state cells change by these
    effects and nothing else. *)
Definition emits {A : Type} (P : Effect -> Prop) (m : M A) : Prop :=
  forall w, exists es,
    log (m w).2 = log w ++ es
    /\ Forall (fun te => P te.2) es
    /\ hook (m w).2 = replay (hook w) es.*2.

Definition keepsIsConnecting (e : Effect) : Prop :=
  match e with
  | SetIsConnecting _ => False
  | _ => True
  end.

(** The attempt started at instant [t] succeeds: the connect promise
    resolves and so does service discovery.  (What the detail fetch meets
    afterwards is caught inside it.) *)
Definition connectSucceeds (ble : BleStack) (deviceId : string) (t : nat) : bool :=
  match connect_result ble deviceId t with
  | None => false
  | Some device => discover_result ble device (t + connect_latency ble deviceId t)
  end.

Definition attemptFails (ble : BleStack) (deviceId : string) (t : nat) : Prop :=
  connectSucceeds ble deviceId t = false.

(** The instant at which the failure of that attempt is caught. *)
Definition failureTime (ble : BleStack) (deviceId : string) (t : nat) : nat :=
  let t1 := (t + connect_latency ble deviceId t)%nat in
  match connect_result ble deviceId t with
  | None => t1
  | Some device => (t1 + discover_latency ble device t1)%nat
  end.

Definition isConnectCall (te : nat * Effect) : bool :=
  match te.2 with BleConnectToDevice _ => true | _ => false end.

Definition isFailure (te : nat * Effect) : bool :=
  match te.2 with ConsoleError _ => true | _ => false end.

Definition isTimeout (te : nat * Effect) : bool :=
  match te.2 with SetTimeout _ _ _ => true | _ => false end.

(** What the fetch records for a service: its characteristics, or the
    empty list when their discovery rejected. *)
Definition recorded (ble : BleStack) (t : nat) (service : Service) : list Characteristic :=
  default [] (characteristics_result ble service t).

Definition isLifecycleStep (te : nat * Effect) : bool :=
  match te.2 with
  | SetShouldReconnect _ | CancelDeviceConnection _ | BleConnectToDevice _
  | SetTimeout _ _ _ => true
  | _ => false
  end.

Definition isHexString (s : string) : Prop :=
  Forall (fun c => is_Some (hexDigit c)) (String.list_ascii_of_string s).

(** The number a string of hexadecimal digits denotes, most significant
    digit first. *)
Fixpoint hexValue (s : string) : Z :=
  match s with
  | EmptyString => 0
  | String c rest => default 0 (hexDigit c) * 16 ^ Z.of_nat (String.length rest) + hexValue rest
  end.

(** ** Sample stacks, devices and worlds *)

(** A stack on which no connection is ever established. *)
Definition deadStack : BleStack :=
  mkBleStack (fun _ _ => None) (fun _ _ => 50%nat)
             (fun _ _ => false) (fun _ _ => 0%nat)
             (fun _ _ => None) (fun _ _ => 0%nat)
             (fun _ _ => None) (fun _ _ => 0%nat)
             (fun _ _ => true) (fun _ _ => 10%nat).

(** The first render, at instant 0, nothing pending. *)
Definition freshWorld : World := mkWorld initialState 0 [] [].

Definition batteryService : Service := mkService 1 "180F".
Definition informationService : Service := mkService 2 "180A".
Definition thermometer : Device := mkDevice "AA:BB" (Some "Thermo") (Some (-60)) None.
Definition scale : Device := mkDevice "CC:DD" (Some "Scale") (Some (-72)) (Some 4).

(** A stack with two devices in reach, on which every connection and
    cancellation resolves; the battery service cannot be explored while the
    device-information service can, the failure settling last. *)
Definition flakyStack : BleStack :=
  mkBleStack (fun deviceId _ => if String.eqb deviceId "AA:BB"
                                then Some thermometer else Some scale)
             (fun _ _ => 50%nat)
             (fun _ _ => true) (fun _ _ => 20%nat)
             (fun _ _ => Some [batteryService; informationService]) (fun _ _ => 5%nat)
             (fun s _ => if String.eqb (svc_uuid s) "180F" then None
                         else Some [mkCharacteristic "2A29" (Some "ACME")])
             (fun s _ => if String.eqb (svc_uuid s) "180F" then 30%nat else 10%nat)
             (fun _ _ => true) (fun _ _ => 10%nat).

(** A world the code reaches: from the first render the user taps Connect
    on the thermometer, and the connection succeeds. *)
Definition connectedWorld : World :=
  exec (switchToDevice flakyStack (hook freshWorld) "AA:BB") freshWorld.

(** The detail of a device whose battery characteristic reads [value]. *)
Definition detailWithBattery (value : option string) : DeviceDetails :=
  mkDeviceDetails [batteryService; informationService]
    (Some (<["180F" := [mkCharacteristic "2A1A" (Some "01");
                        mkCharacteristic "2A19" value]]>
           (<["180A" := [mkCharacteristic "2A29" (Some "ACME")]]> ∅))).

(** The thermometer connected, its battery characteristic reading 00. *)
Definition drainedState : HookState :=
  mkHookState [thermometer; scale] (Some thermometer)
              (Some (detailWithBattery (Some "00"))) false true 0.

(** ** The application as an event loop

    What App.tsx and DeviceItem.tsx wire to the hook: the Start Scan button,
    the button of a list item, and the two listeners the hook hands to the
    BLE stack.  Handlers run one after another, each with the state of the
    render that is current when it starts. *)

(** [connectedDevice?.id === item.id] of [renderItem]. *)
Definition isConnectedItem (s : HookState) (item : Device) : bool :=
  match connectedDevice s with
  | Some connected => String.eqb (dev_id connected) (dev_id item)
  | None => false
  end.

(** The button of a list item: [renderItem] picks [handleDisconnect] for
    the connected item and [switchToDevice] for the others, and passes
    [isConnecting && connectedDevice?.id === item.id] as [isConnecting];
    the item runs [!isConnecting && onPress(device.id)]. *)
Definition pressItemButton (ble : BleStack) (s : HookState) (item : Device) : M unit :=
  let isConnected := isConnectedItem s item in
  let isConnecting := isConnecting s && isConnectedItem s item in
  if isConnecting then mret tt
  else if isConnected then handleDisconnect ble s (dev_id item)
       else switchToDevice ble s (dev_id item).

Inductive Event :=
| TapStartScan
| Advertisement (error : option string) (device : option Device)
| TapItemButton (index : nat)              (* the item at [index] of the list *)
| DeviceDisconnected (error : option string) (device : option Device)
| TimerFires.

(** One turn of the loop.  The list shows the registry, so a tap reaches an
    item of the registry; the disconnect listener is subscribed only while
    a device is connected; a timer fires only when one is pending.  Each
    handler runs to its end within its turn: the loop reaches the worlds of
    handlers that take turns, not those in which a handler starts while
    another awaits, so it is used only for what does not depend on that
    (the registry, the form of a stored detail, the attempt counts of the
    timers). *)
Definition dispatch (ble : BleStack) (ev : Event) (w : World) : World :=
  match ev with
  | TapStartScan => exec scanDevices w
  | Advertisement error device => exec (scanListener error device) w
  | TapItemButton index =>
      match devices (hook w) !! index with
      | Some item => exec (pressItemButton ble (hook w) item) w
      | None => w
      end
  | DeviceDisconnected error device =>
      match connectedDevice (hook w) with
      | Some _ => exec (onDeviceDisconnected ble (hook w) error device) w
      | None => w
      end
  | TimerFires =>
      match fireTimer ble w with
      | Some w' => w'
      | None => w
      end
  end.

Definition runEvents (ble : BleStack) (evs : list Event) (w : World) : World :=
  foldl (fun w ev => dispatch ble ev w) w evs.

(** ** Handlers that overlap

    A handler suspended at an [await] lets timers and other handlers run.
    No callback of the hook reads a state cell once it has started: it
    reads its closure and the answers of the stack, and writes through the
    setters.  So the effects of a run and their instants are those of the
    run on its own ([logFrom]), and the state at an instant is the replay,
    in order of time, of the effects of all the runs up to that instant. *)

(** [m] does to a world what it does to the blank world of the same
    instant: same result, same clock, same effects appended. *)
Definition clocked {A : Type} (m : M A) : Prop :=
  forall w,
    let blank := mkWorld initialState (now w) [] [] in
    (m w).1 = (m blank).1
    /\ now (m w).2 = now (m blank).2
    /\ log (m w).2 = log w ++ log (m blank).2.

(** The effects of a handler started at instant [t], with their instants. *)
Definition logFrom (m : M unit) (t : nat) : list (nat * Effect) :=
  log (exec m (mkWorld initialState t [] [])).








(** The service whose discovery settles last among those that carry
    [uuid]: the one whose entry stays in the detail map. *)
Definition lastSettled (ble : BleStack) (t : nat) (services : list Service) (uuid : string)
  : option Service :=
  List.find (fun service => String.eqb (svc_uuid service) uuid)
            (reverse (settleOrder (fun service => characteristics_latency ble service t)
                                  services)).

(** ** Further vocabulary *)

(** A computation that moves neither a state cell nor the timer queue. *)
Definition quiet {A : Type} (m : M A) : Prop :=
  forall w, hook (m w).2 = hook w /\ timers (m w).2 = timers w.

Definition isStateless (e : Effect) : Prop :=
  match e with
  | SetDevices _ | AppendDevice _ | SetConnectedDevice _ | SetDeviceDetails _
  | SetIsConnecting _ | SetShouldReconnect _ | SetReconnectAttempts _
  | IncReconnectAttempts | SetTimeout _ _ _ => False
  | _ => True
  end.

(** The firings a pending timer can still cause: itself and the retries
    that its failure would register. *)
Definition firingsLeft (timer : nat * (string * nat)) : nat :=
  (MAX_RECONNECT_ATTEMPTS - timer.2.2)%nat `max` 1%nat.

Definition pendingFirings (ts : list (nat * (string * nat))) : nat :=
  foldr (fun timer n => (firingsLeft timer + n)%nat) 0%nat ts.

(** The detail lists its services and maps exactly their identifiers. *)
Definition wellFormedDetails (details : option DeviceDetails) : Prop :=
  match details with
  | None => True
  | Some d =>
      exists byUUID : gmap string (list Characteristic),
        characteristics d = Some byUUID
        /\ dom byUUID = list_to_set (svc_uuid <$> services d)
  end.

(** What every handler keeps of a world: the registry has one named device
    per identifier, a stored detail is well formed, and no pending timer
    carries more than 2 attempts. *)
Definition settled (w : World) : Prop :=
  NoDup (dev_id <$> devices (hook w))
  /\ Forall (fun d => truthy (dev_name d) = true) (devices (hook w))
  /\ wellFormedDetails (deviceDetails (hook w))
  /\ Forall (fun timer : nat * (string * nat) => (timer.2.2 <= 2)%nat) (timers w).

(** The detail map when each identifier belongs to one service: the entry
    of every service, whatever the settling order. *)
Definition entriesOf (ble : BleStack) (t : nat) (services : list Service)
  : gmap string (list Characteristic) :=
  list_to_map ((fun service => (svc_uuid service, recorded ble t service)) <$> services).

(** An effect of the detail fetch: it neither stops the scan nor registers
    a timer. *)
Definition isFetchEffect (e : Effect) : Prop :=
  match e with
  | StopDeviceScan | SetTimeout _ _ _ => False
  | _ => True
  end.


Definition isStopScan (te : nat * Effect) : bool :=
  match te.2 with StopDeviceScan => true | _ => false end.

(** A session: a scan finds the thermometer and the scale, and the user
    taps Connect on the thermometer. *)
Definition sampleSession : list Event :=
  [TapStartScan; Advertisement None (Some thermometer);
   Advertisement None (Some scale); TapItemButton 0].

(** A device with two battery services: the discovery of the first rejects
    and that of the second resolves, later. *)
Definition twinStack : BleStack :=
  mkBleStack (fun _ _ => Some thermometer) (fun _ _ => 50%nat)
             (fun _ _ => true) (fun _ _ => 20%nat)
             (fun _ _ => Some [mkService 1 "180F"; mkService 2 "180F"]) (fun _ _ => 5%nat)
             (fun s _ => if (svc_handle s =? 1)%nat then None
                         else Some [mkCharacteristic "2A19" (Some "64")])
             (fun s _ => if (svc_handle s =? 1)%nat then 10%nat else 30%nat)
             (fun _ _ => true) (fun _ _ => 10%nat).




(** The thermometer connected, its battery characteristic reading 64. *)
Definition chargedState : HookState :=
  mkHookState [thermometer; scale] (Some thermometer)
              (Some (detailWithBattery (Some "64"))) false true 0.

(** ** Monad laws used throughout *)

Lemma exec_bind {A B : Type} (m : M A) (k : A -> M B) (w : World) :
  exec (m ≫= k) w = exec (k (m w).1) (m w).2.
Proof.
  unfold exec, mbind, M_bind. destruct (m w) as [a w']. reflexivity.
Qed.

Lemma exec_seq {B : Type} (m : M unit) (k : M B) (w : World) :
  exec (m ;; k) w = exec k (exec m w).
Proof.
  rewrite exec_bind. unfold exec. destruct (m w) as [[] w']. reflexivity.
Qed.

Lemma exec_forEach_cons {A : Type} (f : A -> M unit) (x : A) (l : list A) (w : World) :
  exec (forEach f (x :: l)) w = exec (forEach f l) (exec (f x) w).
Proof. simpl. apply exec_seq. Qed.

(** ** The device registry *)

Lemma findIndex_lower {A : Type} (p : A -> bool) (l : list A) : -1 <= findIndex p l.
Proof.
  induction l as [|x l IH]; simpl; [lia|].
  destruct (p x); [lia|].
  destruct (Z.eqb_spec (findIndex p l) (-1)); lia.
Qed.

Lemma findIndex_none {A : Type} (p : A -> bool) (l : list A) :
  findIndex p l = -1 <-> Forall (fun x => p x = false) l.
Proof.
  induction l as [|x l IH]; simpl.
  - split; [constructor | reflexivity].
  - destruct (p x) eqn:Hp.
    + split; [lia | intros H; inversion H; congruence].
    + pose proof (findIndex_lower p l).
      destruct (Z.eqb_spec (findIndex p l) (-1)) as [E|E].
      * split; [intros _; constructor; [exact Hp | apply IH, E] | reflexivity].
      * split; [lia | intros H'; inversion H'; subst; exfalso; apply E, IH; assumption].
Qed.

Lemma isDuplicate_elem (l : list Device) (d : Device) :
  isDuplicate l d = true <-> dev_id d ∈ dev_id <$> l.
Proof.
  unfold isDuplicate.
  pose proof (findIndex_lower (fun device => String.eqb (dev_id d) (dev_id device)) l) as Hlow.
  pose proof (findIndex_none (fun device => String.eqb (dev_id d) (dev_id device)) l) as Hnone.
  rewrite Z.ltb_lt. split.
  - intros Hlt. destruct (decide (dev_id d ∈ dev_id <$> l)) as [|Hn]; [assumption|].
    exfalso. assert (findIndex (fun device => String.eqb (dev_id d) (dev_id device)) l = -1); [|lia].
    apply Hnone. apply Forall_forall. intros x Hx.
    apply String.eqb_neq. intros E. apply Hn. rewrite E.
    apply list_elem_of_fmap. exists x. split; [reflexivity | assumption].
  - intros Hin.
    destruct (Z.eq_dec (findIndex (fun device => String.eqb (dev_id d) (dev_id device)) l) (-1))
      as [E|E]; [|lia].
    exfalso. apply Hnone in E. apply list_elem_of_fmap in Hin as (x & Hid & Hx).
    rewrite Forall_forall in E. specialize (E x Hx). apply String.eqb_neq in E. congruence.
Qed.

Lemma exec_scanListener (w : World) (ev : option string * option Device) :
  devices (hook (exec (scanListener ev.1 ev.2) w)) =
    match discovered [ev] with
    | [d] => if isDuplicate (devices (hook w)) d then devices (hook w)
             else devices (hook w) ++ [d]
    | _ => devices (hook w)
    end.
Proof.
  destruct ev as [[e|] [d|]]; simpl; try reflexivity.
  destruct (truthy (dev_name d)); simpl; [|reflexivity].
  destruct (isDuplicate (devices (hook w)) d); reflexivity.
Qed.

Lemma discovered_cons (ev : option string * option Device) events :
  discovered (ev :: events) = discovered [ev] ++ discovered events.
Proof.
  unfold discovered. simpl.
  destruct ev as [[e|] [d|]]; simpl; try reflexivity.
  destruct (truthy (dev_name d)); reflexivity.
Qed.

Lemma discovered_single (ev : option string * option Device) :
  discovered [ev] = [] \/ exists d, discovered [ev] = [d].
Proof.
  destruct ev as [[e|] [d|]]; simpl; auto.
  unfold discovered; simpl. destruct (truthy (dev_name d)); eauto.
Qed.

Lemma deliver_devices (events : list (option string * option Device)) (w : World) :
  devices (hook (exec (deliver events) w)) =
    devices (hook w)
    ++ firstSeen (list_to_set (dev_id <$> devices (hook w))) (discovered events).
Proof.
  revert w. induction events as [|ev events IH]; intros w.
  - simpl. by rewrite app_nil_r.
  - unfold deliver in *. rewrite discovered_cons.
    rewrite exec_forEach_cons, IH, exec_scanListener.
    destruct (discovered_single ev) as [-> | [d ->]]; [reflexivity|].
    simpl. destruct (isDuplicate (devices (hook w)) d) eqn:Hdup.
    + apply isDuplicate_elem in Hdup.
      rewrite decide_True by (by apply elem_of_list_to_set). reflexivity.
    + assert (dev_id d ∉ dev_id <$> devices (hook w)) as Hn.
      { intros Hin. apply isDuplicate_elem in Hin. congruence. }
      rewrite decide_False by (by rewrite elem_of_list_to_set).
      rewrite <- app_assoc. simpl. do 3 f_equal.
      rewrite fmap_app, list_to_set_app_L. simpl. set_solver.
Qed.

Lemma firstSeen_fresh (seen : gset string) (ds : list Device) (d : Device) :
  d ∈ firstSeen seen ds -> (dev_id d ∉ seen) /\ (d ∈ ds).
Proof.
  revert seen. induction ds as [|x ds IH]; intros seen; simpl.
  - intros H. by apply elem_of_nil in H.
  - destruct (decide (dev_id x ∈ seen)) as [Hin|Hin].
    + intros H. apply IH in H as [? ?]. split; [assumption | by right].
    + intros H. apply elem_of_cons in H as [-> | H].
      * split; [assumption | by left].
      * apply IH in H as [Hn ?]. split; [set_solver | by right].
Qed.

Lemma firstSeen_NoDup (seen : gset string) (ds : list Device) :
  NoDup (dev_id <$> firstSeen seen ds).
Proof.
  revert seen. induction ds as [|x ds IH]; intros seen; simpl; [constructor|].
  destruct (decide (dev_id x ∈ seen)); [apply IH|].
  simpl. constructor; [|apply IH].
  intros Hin. apply list_elem_of_fmap in Hin as (y & Hid & Hy).
  apply firstSeen_fresh in Hy as [Hn _]. set_solver.
Qed.

Lemma firstSeen_lookup (id : string) (seen : gset string) (ds : list Device) :
  id ∉ seen -> lookupById id (firstSeen seen ds) = lookupById id ds.
Proof.
  unfold lookupById.
  revert seen. induction ds as [|x ds IH]; intros seen Hid; simpl; [reflexivity|].
  destruct (decide (dev_id x ∈ seen)) as [Hin|Hin].
  - destruct (String.eqb_spec id (dev_id x)) as [->|_]; [contradiction|]. by apply IH.
  - simpl. destruct (String.eqb_spec id (dev_id x)) as [->|Hne]; [reflexivity|].
    apply IH. set_solver.
Qed.

Lemma discovered_named (events : list (option string * option Device)) (d : Device) :
  d ∈ discovered events -> truthy (dev_name d) = true.
Proof.
  unfold discovered. rewrite list_elem_of_omap.
  intros ([[e|] [x|]] & _ & H); try discriminate.
  destruct (truthy (dev_name x)) eqn:Hn; [|discriminate]. congruence.
Qed.

(** C4. Whatever the registry held before, after [scanDevices] and any
    sequence of advertisement events the registry has at most one entry per
    device identifier, holds only named devices, and is exactly the first
    advertisement of each identifier in the order of first discovery: a
    later advertisement of a known identifier changes nothing, so looking an
    identifier up in the registry gives the data it was first seen with. *)
Theorem registry_first_seen (w : World) (events : list (option string * option Device)) :
  let registry := devices (hook (exec (scanDevices ;; deliver events) w)) in
  NoDup (dev_id <$> registry)
  /\ Forall (fun d => truthy (dev_name d) = true) registry
  /\ registry = firstSeen ∅ (discovered events)
  /\ forall id, lookupById id registry = lookupById id (discovered events).
Proof.
  intros registry.
  assert (registry = firstSeen ∅ (discovered events)) as Hreg.
  { unfold registry. rewrite exec_seq, deliver_devices. reflexivity. }
  rewrite Hreg. repeat split.
  - apply firstSeen_NoDup.
  - apply Forall_forall. intros d Hd. apply firstSeen_fresh in Hd as [_ Hd].
    by apply discovered_named in Hd.
  - intros id. apply firstSeen_lookup. set_solver.
Qed.

(** ** Running a callback *)

Lemma since_app (w w' : World) (es : list (nat * Effect)) :
  log w' = log w ++ es -> since w w' = es.
Proof. intros H. unfold since. rewrite H. by rewrite drop_app_length. Qed.

Ltac run :=
  unfold exec, tryCatchFinally, await, consoleError, setTimeout, sleep, waitUntil,
         getNow, act, mbind, M_bind, mret, M_ret in *;
  cbn in *.

(** C5. From any state, [scanDevices] first empties the registry, then
    clears the connected device, then clears the device detail, and only
    then starts the scan of the BLE stack: these are its four effects, in
    this order, and the three cells are empty when the scan has started. *)
Theorem scanDevices_clears_first (w : World) :
  let w' := exec scanDevices w in
  snd <$> since w w' =
    [SetDevices []; SetConnectedDevice None; SetDeviceDetails None; StartDeviceScan]
  /\ (let cleared := replay (hook w)
                       [SetDevices []; SetConnectedDevice None; SetDeviceDetails None] in
      devices cleared = [] /\ connectedDevice cleared = None /\ deviceDetails cleared = None
      /\ hook w' = applyEffect StartDeviceScan cleared)
  /\ devices (hook w') = []
  /\ connectedDevice (hook w') = None
  /\ deviceDetails (hook w') = None.
Proof.
  intros w'. split; [|repeat split].
  unfold w', scanDevices.
  erewrite since_app; [|run; rewrite <- !app_assoc; reflexivity].
  reflexivity.
Qed.

(** ** What a callback emits *)

Lemma emits_ret {A : Type} (P : Effect -> Prop) (a : A) : emits P (mret a).
Proof.
  intros w. exists []. simpl. rewrite app_nil_r. repeat split. constructor.
Qed.

Lemma emits_act (P : Effect -> Prop) (e : Effect) : P e -> emits P (act e).
Proof.
  intros He w. exists [(now w, e)]. simpl. repeat split.
  constructor; [exact He | constructor].
Qed.

Lemma emits_getNow (P : Effect -> Prop) : emits P getNow.
Proof.
  intros w. exists []. simpl. rewrite app_nil_r. repeat split. constructor.
Qed.

Lemma emits_sleep (P : Effect -> Prop) (ms : nat) : emits P (sleep ms).
Proof.
  intros w. exists []. simpl. rewrite app_nil_r. repeat split. constructor.
Qed.

Lemma emits_waitUntil (P : Effect -> Prop) (t : nat) : emits P (waitUntil t).
Proof.
  intros w. exists []. simpl. rewrite app_nil_r. repeat split. constructor.
Qed.

Lemma emits_setTimeout (P : Effect -> Prop) (deviceId : string) (attempts ms : nat) :
  P (SetTimeout deviceId attempts ms) -> emits P (setTimeout deviceId attempts ms).
Proof.
  intros He w. exists [(now w, SetTimeout deviceId attempts ms)]. simpl. repeat split.
  constructor; [exact He | constructor].
Qed.

Lemma emits_bind {A B : Type} (P : Effect -> Prop) (m : M A) (k : A -> M B) :
  emits P m -> (forall a, emits P (k a)) -> emits P (m ≫= k).
Proof.
  intros Hm Hk w. unfold mbind, M_bind.
  destruct (Hm w) as (es1 & Hl1 & Hp1 & Hh1).
  destruct (m w) as [a w1]. simpl in *.
  destruct (Hk a w1) as (es2 & Hl2 & Hp2 & Hh2).
  exists (es1 ++ es2). repeat split.
  - rewrite Hl2, Hl1. by rewrite app_assoc.
  - by apply Forall_app.
  - rewrite Hh2, Hh1. unfold replay. by rewrite fmap_app, foldl_app.
Qed.

Lemma emits_forEach {A : Type} (P : Effect -> Prop) (f : A -> M unit) (l : list A) :
  (forall x, emits P (f x)) -> emits P (forEach f l).
Proof.
  intros Hf. induction l as [|x l IH]; simpl.
  - apply emits_ret.
  - apply emits_bind; [apply Hf | intros _; apply IH].
Qed.

Lemma emits_foldM {A B : Type} (P : Effect -> Prop) (f : B -> A -> M B) (b : B) (l : list A) :
  (forall b x, emits P (f b x)) -> emits P (foldM f b l).
Proof.
  intros Hf. revert b. induction l as [|x l IH]; intros b; simpl.
  - apply emits_ret.
  - apply emits_bind; [apply Hf | intros b'; apply IH].
Qed.

Lemma emits_await {A : Type} (P : Effect -> Prop) (e : Effect)
    (result : nat -> A) (latency : nat -> nat) :
  P e -> emits P (await e result latency).
Proof.
  intros He. unfold await.
  apply emits_bind; [by apply emits_act|]. intros _.
  apply emits_bind; [apply emits_getNow|]. intros t.
  apply emits_bind; [apply emits_sleep|]. intros _.
  apply emits_ret.
Qed.

(** Discharges [emits P m] for a callback [m] built from the combinators,
    given that [P] holds of each effect it names. *)
Ltac emits_tac :=
  repeat first
    [ apply emits_ret | apply emits_getNow | apply emits_sleep | apply emits_waitUntil
    | apply emits_bind; [|intros ?]
    | apply emits_await | apply emits_act | apply emits_setTimeout
    | apply emits_forEach; intros ?
    | apply emits_foldM; intros ? ?
    | match goal with |- emits _ (match ?x with _ => _ end) => destruct x end
    | exact I ].

Lemma getServicesAndCharacteristics_emits ble device :
  emits keepsIsConnecting (getServicesAndCharacteristics ble device).
Proof.
  unfold getServicesAndCharacteristics, settleService, consoleError. emits_tac.
Qed.








(** ** Runs depend on the clock only *)

Lemma clocked_ret {A : Type} (a : A) : clocked (mret a : M A).
Proof. intros w. simpl. by rewrite app_nil_r. Qed.

Lemma clocked_act (e : Effect) : clocked (act e).
Proof. intros w. simpl. by repeat split. Qed.

Lemma clocked_getNow : clocked getNow.
Proof. intros w. simpl. by rewrite app_nil_r. Qed.

Lemma clocked_sleep (ms : nat) : clocked (sleep ms).
Proof. intros w. simpl. by rewrite app_nil_r. Qed.

Lemma clocked_waitUntil (t : nat) : clocked (waitUntil t).
Proof. intros w. simpl. by rewrite app_nil_r. Qed.

Lemma clocked_setTimeout (deviceId : string) (attempts ms : nat) :
  clocked (setTimeout deviceId attempts ms).
Proof. intros w. simpl. by repeat split. Qed.

Lemma clocked_bind {A B : Type} (m : M A) (k : A -> M B) :
  clocked m -> (forall a, clocked (k a)) -> clocked (m ≫= k).
Proof.
  intros Hm Hk w. unfold mbind, M_bind. cbv zeta.
  destruct (Hm w) as (Ha & Hn & Hl).
  destruct (m w) as [a w1], (m (mkWorld initialState (now w) [] [])) as [a0 w0].
  simpl in *. subst a0.
  destruct (Hk a w1) as (Ha1 & Hn1 & Hl1).
  destruct (Hk a w0) as (Ha0 & Hn0 & Hl0).
  rewrite Hn in Ha1, Hn1, Hl1.
  repeat split.
  - congruence.
  - congruence.
  - rewrite Hl1, Hl0, Hl, <- app_assoc. reflexivity.
Qed.

Lemma clocked_forEach {A : Type} (f : A -> M unit) (l : list A) :
  (forall x, clocked (f x)) -> clocked (forEach f l).
Proof.
  intros Hf. induction l as [|x l IH]; simpl.
  - apply clocked_ret.
  - apply clocked_bind; [apply Hf | intros _; apply IH].
Qed.

Lemma clocked_foldM {A B : Type} (f : B -> A -> M B) (b : B) (l : list A) :
  (forall b x, clocked (f b x)) -> clocked (foldM f b l).
Proof.
  intros Hf. revert b. induction l as [|x l IH]; intros b; simpl.
  - apply clocked_ret.
  - apply clocked_bind; [apply Hf | intros b'; apply IH].
Qed.

Ltac clocked_tac :=
  repeat first
    [ apply clocked_ret | apply clocked_getNow | apply clocked_sleep
    | apply clocked_waitUntil | apply clocked_act | apply clocked_setTimeout
    | apply clocked_bind; [|intros ?]
    | apply clocked_forEach; intros ?
    | apply clocked_foldM; intros ? ?
    | match goal with |- clocked (match ?x with _ => _ end) => destruct x end ].

Lemma clocked_connectToDevice ble deviceId attempts :
  clocked (connectToDevice ble deviceId attempts).
Proof.
  unfold connectToDevice, tryCatchFinally, getServicesAndCharacteristics, settleService,
    await, consoleError.
  clocked_tac.
Qed.

Lemma clocked_handleDisconnect ble closure deviceId :
  clocked (handleDisconnect ble closure deviceId).
Proof. unfold handleDisconnect, await, consoleError. clocked_tac. Qed.

Lemma clocked_switchToDevice ble closure deviceId :
  clocked (switchToDevice ble closure deviceId).
Proof.
  unfold switchToDevice.
  apply clocked_bind; [apply clocked_act|]. intros _.
  apply clocked_bind; [|intros _; apply clocked_act].
  destruct (connectedDevice closure).
  - apply clocked_bind; [apply clocked_handleDisconnect|].
    intros _. apply clocked_connectToDevice.
  - apply clocked_connectToDevice.
Qed.

(** The effects of a run of a handler from any world are those of the run
    on its own from the same instant: other runs in flight do not change
    them. *)
Lemma since_logFrom (m : M unit) (w : World) :
  clocked m -> since w (exec m w) = logFrom m (now w).
Proof.
  intros Hm. destruct (Hm w) as (_ & _ & Hl). by apply since_app.
Qed.

Lemma run_on_its_own ble (closure : HookState) (item : Device) (w : World) :
  since w (exec (pressItemButton ble closure item) w)
  = logFrom (pressItemButton ble closure item) (now w).
Proof.
  apply since_logFrom. unfold pressItemButton.
  destruct (isConnecting closure && isConnectedItem closure item); [apply clocked_ret|].
  destruct (isConnectedItem closure item);
    [apply clocked_handleDisconnect | apply clocked_switchToDevice].
Qed.



(** ** Failing connection attempts *)

Lemma failed_attempt ble deviceId attempts (w : World) :
  attemptFails ble deviceId (now w) ->
  let w' := exec (connectToDevice ble deviceId attempts) w in
  let f := failureTime ble deviceId (now w) in
  hook w' = applyEffect (SetIsConnecting false) (hook w)
  /\ now w' = f
  /\ timers w' = timers w ++ (if (attempts <? 2)%nat
                              then [((f + 2000)%nat, (deviceId, (attempts + 1)%nat))] else [])
  /\ exists es, log w' = log w ++ es
       /\ List.filter isConnectCall es = [(now w, BleConnectToDevice deviceId)]
       /\ List.filter isFailure es = [(f, ConsoleError "Failed to connect")]
       /\ List.filter isTimeout es =
            (if (attempts <? 2)%nat then [(f, SetTimeout deviceId (attempts + 1) 2000)] else []).
Proof.
  unfold attemptFails, connectSucceeds, failureTime, connectToDevice. intros Hfail.
  change (attempts <? 2)%nat with (attempts <? MAX_RECONNECT_ATTEMPTS - 1)%nat.
  destruct (attempts <? MAX_RECONNECT_ATTEMPTS - 1)%nat; run;
    (destruct (connect_result ble deviceId (now w)) as [device|]; cbn; [rewrite Hfail|]);
    cbn;
    (split; [reflexivity|]); (split; [reflexivity|]);
    (split; [by rewrite ?app_nil_r|]);
    eexists; (split; [rewrite <- !app_assoc; simpl; reflexivity|]);
    repeat split.
Qed.

Lemma fire_failed_retry ble deviceId attempts due (w : World) :
  timers w = [(due, (deviceId, attempts))] ->
  (now w <= due)%nat ->
  attemptFails ble deviceId due ->
  let f := failureTime ble deviceId due in
  exists w',
    fireTimer ble w = Some w'
    /\ hook w' = applyEffect (SetIsConnecting false) (hook w)
    /\ now w' = f
    /\ timers w' = (if (attempts <? 2)%nat
                    then [((f + 2000)%nat, (deviceId, (attempts + 1)%nat))] else [])
    /\ exists es, log w' = log w ++ es
         /\ List.filter isConnectCall es = [(due, BleConnectToDevice deviceId)]
         /\ List.filter isFailure es = [(f, ConsoleError "Failed to connect")]
         /\ List.filter isTimeout es =
              (if (attempts <? 2)%nat then [(f, SetTimeout deviceId (attempts + 1) 2000)] else []).
Proof.
  intros Ht Hdue Hfail f. unfold fireTimer. rewrite Ht. simpl.
  eexists. split; [reflexivity|].
  rewrite Nat.max_r by exact Hdue.
  pose proof (failed_attempt ble deviceId attempts
                (mkWorld (hook w) due [] (log w)) Hfail) as H.
  exact H.
Qed.

Lemma runTimers_no_timers ble (fuel : nat) (w : World) :
  timers w = [] -> runTimers ble fuel w = w.
Proof.
  intros Ht. destruct fuel; simpl; [reflexivity|].
  unfold fireTimer. rewrite Ht. reflexivity.
Qed.

(** C3. When every connection attempt fails, a call of [connectToDevice]
    (attempt count 0, no other timer pending) makes exactly three attempts:
    the first at once, and each of the two retries 2000 ms after the failure
    of the attempt before it, registered by that failure's handler.  The
    third failure registers no timer: the timer queue is empty, nothing
    fires any more, and the state cells are those of before the call with
    [isConnecting] false, so the failure leaves no mark in the state. *)
Theorem connect_gives_up_after_three ble deviceId (w : World) (fuel : nat) :
  timers w = [] ->
  (forall t, attemptFails ble deviceId t) ->
  (2 <= fuel)%nat ->
  let w' := runTimers ble fuel (exec (connectToDevice ble deviceId 0) w) in
  let t0 := now w in
  let f0 := failureTime ble deviceId t0 in
  let t1 := (f0 + 2000)%nat in
  let f1 := failureTime ble deviceId t1 in
  let t2 := (f1 + 2000)%nat in
  let f2 := failureTime ble deviceId t2 in
  List.filter isConnectCall (since w w') =
    [(t0, BleConnectToDevice deviceId); (t1, BleConnectToDevice deviceId);
     (t2, BleConnectToDevice deviceId)]
  /\ List.filter isFailure (since w w') =
       [(f0, ConsoleError "Failed to connect"); (f1, ConsoleError "Failed to connect");
        (f2, ConsoleError "Failed to connect")]
  /\ List.filter isTimeout (since w w') =
       [(f0, SetTimeout deviceId 1 2000); (f1, SetTimeout deviceId 2 2000)]
  /\ timers w' = []
  /\ fireTimer ble w' = None
  /\ hook w' = applyEffect (SetIsConnecting false) (hook w).
Proof.
  intros Ht Hfail Hfuel w' t0 f0 t1 f1 t2 f2.
  destruct fuel as [|[|fuel]]; [lia | lia |].
  destruct (failed_attempt ble deviceId 0 w (Hfail _))
    as (Hh0 & Hn0 & Ht0 & es0 & Hl0 & Hc0 & He0 & Hs0).
  rewrite Ht in Ht0. simpl in Ht0. fold t0 f0 in Hn0, Ht0, Hc0, He0, Hs0.
  set (w0 := exec (connectToDevice ble deviceId 0) w) in *.
  destruct (fire_failed_retry ble deviceId 1 t1 w0 Ht0 ltac:(unfold t1; lia) (Hfail _))
    as (w1 & Hf1 & Hh1 & Hn1 & Ht1 & es1 & Hl1 & Hc1 & He1 & Hs1).
  simpl in Ht1, Hs1. fold f1 t2 in Hn1, Ht1, Hc1, He1, Hs1.
  destruct (fire_failed_retry ble deviceId 2 t2 w1 Ht1 ltac:(unfold t2; lia) (Hfail _))
    as (w2 & Hf2 & Hh2 & Hn2 & Ht2 & es2 & Hl2 & Hc2 & He2 & Hs2).
  simpl in Ht2, Hs2. fold f2 in Hn2, Ht2, Hc2, He2, Hs2.
  assert (w' = w2) as ->.
  { unfold w'. simpl. rewrite Hf1, Hf2. by apply runTimers_no_timers. }
  assert (since w w2 = es0 ++ es1 ++ es2) as ->.
  { apply since_app. rewrite Hl2, Hl1, Hl0. by rewrite <- !app_assoc. }
  rewrite !List.filter_app, Hc0, Hc1, Hc2, He0, He1, He2, Hs0, Hs1, Hs2.
  repeat split; try assumption.
  - unfold fireTimer. rewrite Ht2. reflexivity.
  - rewrite Hh2, Hh1, Hh0. reflexivity.
Qed.

Lemma connect_gives_up_after_three_witness :
  timers freshWorld = []
  /\ (forall t, attemptFails deadStack "AA:BB" t)
  /\ (2 <= 5)%nat
  /\ let w' := runTimers deadStack 5 (exec (connectToDevice deadStack "AA:BB" 0) freshWorld) in
     List.filter isConnectCall (since freshWorld w') =
       [(0%nat, BleConnectToDevice "AA:BB"); (2050%nat, BleConnectToDevice "AA:BB");
        (4100%nat, BleConnectToDevice "AA:BB")]
     /\ timers w' = [].
Proof.
  split; [reflexivity|]. split; [exact (fun t => eq_refl)|]. split; [lia|].
  pose proof (connect_gives_up_after_three deadStack "AA:BB" freshWorld 5
                eq_refl (fun t => eq_refl) ltac:(lia)) as (Hc & _ & _ & Ht & _).
  split; [exact Hc | exact Ht].
Defined.

(** ** The detail fetch *)

Lemma insertSettled_elem (latency : Service -> nat) (s x : Service) (l : list Service) :
  x ∈ insertSettled latency s l <-> x = s \/ x ∈ l.
Proof.
  induction l as [|y l IH]; simpl.
  - rewrite list_elem_of_singleton. set_solver.
  - destruct (latency s <? latency y)%nat.
    + by rewrite elem_of_cons.
    + rewrite !elem_of_cons, IH. tauto.
Qed.

Lemma settleOrder_elem (latency : Service -> nat) (x : Service) (l : list Service) :
  x ∈ settleOrder latency l <-> x ∈ l.
Proof.
  unfold settleOrder.
  assert (forall acc, x ∈ foldl (fun settled s => insertSettled latency s settled) acc l
                      <-> x ∈ acc \/ x ∈ l) as H.
  { induction l as [|y l IH]; intros acc; simpl.
    - rewrite elem_of_nil. tauto.
    - rewrite IH, insertSettled_elem, elem_of_cons. tauto. }
  rewrite H, elem_of_nil. tauto.
Qed.

Lemma foldM_settleService ble (t : nat) (l : list Service)
    (m0 : gmap string (list Characteristic)) (w : World) :
  (foldM (settleService ble t) m0 l w).1 =
    foldl (fun m service => <[svc_uuid service := recorded ble t service]> m) m0 l.
Proof.
  revert m0 w. induction l as [|s l IH]; intros m0 w; simpl; [reflexivity|].
  unfold mbind, M_bind.
  destruct (settleService ble t m0 s w) as [m1 w1] eqn:E.
  rewrite IH. f_equal.
  unfold settleService, recorded in *. run.
  destruct (characteristics_result ble s t); cbn in E; by inversion E.
Qed.

Lemma lookup_settled (val : Service -> list Characteristic) (l : list Service)
    (m0 : gmap string (list Characteristic)) (u : string) (v : list Characteristic) :
  (forall s, s ∈ l -> svc_uuid s = u -> val s = v) ->
  m0 !! u = Some v \/ (exists s, s ∈ l /\ svc_uuid s = u) ->
  foldl (fun m service => <[svc_uuid service := val service]> m) m0 l !! u = Some v.
Proof.
  revert m0. induction l as [|x l IH]; intros m0 Hval Hsrc; simpl.
  - destruct Hsrc as [H | (s & Hs & _)]; [exact H | by apply elem_of_nil in Hs].
  - apply IH.
    + intros s Hs. apply Hval. by right.
    + destruct (decide (svc_uuid x = u)) as [Hx|Hx].
      * left. rewrite <- Hx, lookup_insert_eq. f_equal. apply Hval; [by left | exact Hx].
      * rewrite lookup_insert_ne by exact Hx.
        destruct Hsrc as [H | (s & Hs & Hu)]; [by left|].
        right. exists s. split; [|exact Hu].
        apply elem_of_cons in Hs as [-> | Hs]; [contradiction | exact Hs].
Qed.

Lemma getServicesAndCharacteristics_details ble device services (w : World) :
  services_result ble device (now w) = Some services ->
  let t := (now w + services_latency ble device (now w))%nat in
  deviceDetails (hook (exec (getServicesAndCharacteristics ble device) w)) =
    Some (mkDeviceDetails services
            (Some (foldl (fun m service => <[svc_uuid service := recorded ble t service]> m) ∅
                         (settleOrder (fun service => characteristics_latency ble service t)
                                      services)))).
Proof.
  intros Hs t. unfold getServicesAndCharacteristics. run. rewrite Hs. cbn.
  match goal with |- context [forEach ?f ?l ?w0] => destruct (forEach f l w0) as [[] w2] end.
  pose proof (foldM_settleService ble t
                (settleOrder (fun service => characteristics_latency ble service t) services)
                ∅ w2) as Hm.
  fold t. destruct (foldM _ _ _ w2) as [m w3]. cbn in *. by rewrite Hm.
Qed.

Lemma lookup_last_settled (val : Service -> list Characteristic) (l : list Service)
    (m0 : gmap string (list Characteristic)) (u : string) :
  foldl (fun m service => <[svc_uuid service := val service]> m) m0 l !! u =
    match List.find (fun service => String.eqb (svc_uuid service) u) (reverse l) with
    | Some service => Some (val service)
    | None => m0 !! u
    end.
Proof.
  induction l as [|x l IH] using rev_ind; [reflexivity|].
  rewrite foldl_app, reverse_app. simpl.
  destruct (String.eqb_spec (svc_uuid x) u) as [->|Hne].
  - by rewrite lookup_insert_eq.
  - rewrite lookup_insert_ne by exact Hne. exact IH.
Qed.

(** C6 (as the code has it). When the services of the device are
    obtained, the fetch always stores a detail that lists them all, however
    many of the per-service discoveries reject.  The detail map is keyed by
    service identifier.  The identifier of a service whose discovery
    rejected maps to the empty list, and the identifier of a service whose
    discovery resolved maps to the characteristics it resolved with, in
    whatever order the discoveries settle, provided no service of another
    outcome carries the same identifier.  Services that carry one
    identifier share one entry: that of the last of them to settle. *)
Theorem service_failure_is_isolated ble device services (w : World) :
  services_result ble device (now w) = Some services ->
  let t := (now w + services_latency ble device (now w))%nat in
  exists byUUID,
    deviceDetails (hook (exec (getServicesAndCharacteristics ble device) w)) =
      Some (mkDeviceDetails services (Some byUUID))
    /\ (forall service,
         service ∈ services ->
         (forall other, other ∈ services -> svc_uuid other = svc_uuid service ->
                        characteristics_result ble other t = characteristics_result ble service t) ->
         match characteristics_result ble service t with
         | None => byUUID !! svc_uuid service = Some []
         | Some characteristics => byUUID !! svc_uuid service = Some characteristics
         end)
    /\ forall uuid,
         byUUID !! uuid = recorded ble t <$> lastSettled ble t services uuid.
Proof.
  intros Hs t. eexists. split; [|split].
  - apply getServicesAndCharacteristics_details, Hs.
  - intros service Hin Hsame. fold t.
    assert (foldl (fun (m : gmap string (list Characteristic)) s =>
                     <[svc_uuid s := recorded ble t s]> m) ∅
                  (settleOrder (fun s => characteristics_latency ble s t) services)
              !! svc_uuid service = Some (recorded ble t service)) as H.
    { apply lookup_settled.
      - intros s Hs' Hu. unfold recorded. f_equal. apply Hsame; [|exact Hu].
        by apply settleOrder_elem in Hs'.
      - right. exists service. split; [by apply settleOrder_elem | reflexivity]. }
    unfold recorded in H at 2.
    destruct (characteristics_result ble service t); exact H.
  - intros uuid. fold t. rewrite lookup_last_settled. unfold lastSettled.
    destruct (List.find _ _); [reflexivity | apply lookup_empty].
Qed.

Lemma service_failure_is_isolated_witness :
  services_result flakyStack thermometer (now freshWorld)
    = Some [batteryService; informationService]
  /\ exists byUUID,
       deviceDetails (hook (exec (getServicesAndCharacteristics flakyStack thermometer) freshWorld))
         = Some (mkDeviceDetails [batteryService; informationService] (Some byUUID))
       /\ byUUID !! "180F" = Some []
       /\ byUUID !! "180A" = Some [mkCharacteristic "2A29" (Some "ACME")].
Proof.
  split; [reflexivity|].
  destruct (service_failure_is_isolated flakyStack thermometer
              [batteryService; informationService] freshWorld eq_refl)
    as (byUUID & Hd & Hm & _).
  exists byUUID. split; [exact Hd|]. split.
  - apply (Hm batteryService); [by left|].
    intros other Ho Hu.
    apply elem_of_cons in Ho as [-> | Ho]; [reflexivity|].
    apply list_elem_of_singleton in Ho as ->. discriminate.
  - apply (Hm informationService); [right; by left|].
    intros other Ho Hu.
    apply elem_of_cons in Ho as [-> | Ho]; [discriminate|].
    apply list_elem_of_singleton in Ho as ->. reflexivity.
Defined.

(** C6 as stated fails.  The device has two services 180F; the discovery
    of the first rejects and that of the second resolves 20 ms later.  The
    identifier of the failed service then maps to the characteristics of its
    twin, not to the empty list. *)
Lemma failed_service_maps_to_its_twin :
  let w' := exec (getServicesAndCharacteristics twinStack thermometer) freshWorld in
  characteristics_result twinStack (mkService 1 "180F") 5 = None
  /\ exists byUUID,
       deviceDetails (hook w') =
         Some (mkDeviceDetails [mkService 1 "180F"; mkService 2 "180F"] (Some byUUID))
       /\ byUUID !! svc_uuid (mkService 1 "180F") = Some [mkCharacteristic "2A19" (Some "64")]
       /\ byUUID !! svc_uuid (mkService 1 "180F") <> Some [].
Proof.
  split; [reflexivity|]. eexists. split; [vm_compute; reflexivity|].
  split; [reflexivity | discriminate].
Qed.

(** ** The reconnect-attempt counter *)

Lemma handleDisconnect_counter ble (closure : HookState) deviceId (w : World) :
  reconnectAttempts (hook (exec (handleDisconnect ble closure deviceId) w)) =
    if cancel_result ble deviceId (now w)
       && shouldReconnect closure
       && (reconnectAttempts closure <? MAX_RECONNECT_ATTEMPTS)%nat
    then (reconnectAttempts (hook w) + 1)%nat
    else reconnectAttempts (hook w).
Proof.
  unfold handleDisconnect.
  destruct (reconnectAttempts closure <? MAX_RECONNECT_ATTEMPTS)%nat;
    run; destruct (cancel_result ble deviceId (now w)), (shouldReconnect closure);
    reflexivity.
Qed.

Lemma connectToDevice_counter ble deviceId attempts (w : World) :
  reconnectAttempts (hook (exec (connectToDevice ble deviceId attempts) w)) =
    if connectSucceeds ble deviceId (now w) then 0%nat else reconnectAttempts (hook w).
Proof.
  unfold connectToDevice, connectSucceeds.
  destruct (attempts <? MAX_RECONNECT_ATTEMPTS - 1)%nat; run;
    (destruct (connect_result ble deviceId (now w)) as [device|]; cbn; [|reflexivity]);
    (destruct (discover_result ble device _); cbn; [|reflexivity]);
    match goal with
    | |- context [getServicesAndCharacteristics ?b ?d ?w0] =>
        destruct (getServicesAndCharacteristics b d w0) as [[] w1]
    end; reflexivity.
Qed.

(** C2 (as the code has it). The counter is moved by two callbacks only.
    [handleDisconnect], the one handler of a disconnect the user asked for
    and of one the device caused, adds one when the cancellation resolves
    and the render it closes over has auto-reconnect enabled and fewer than
    3 attempts counted; otherwise it leaves the counter alone, and it never
    resets it.  [connectToDevice] sets it to 0 when the connection succeeds
    and leaves it alone when it fails.  Scanning does not touch it, and a
    switch to a device whose connection succeeds ends with the counter
    at 0. *)
Theorem reconnect_counter_moves ble :
  (forall closure deviceId w,
      reconnectAttempts (hook (exec (handleDisconnect ble closure deviceId) w)) =
        if cancel_result ble deviceId (now w)
           && shouldReconnect closure
           && (reconnectAttempts closure <? MAX_RECONNECT_ATTEMPTS)%nat
        then (reconnectAttempts (hook w) + 1)%nat
        else reconnectAttempts (hook w))
  /\ (forall deviceId attempts w,
         reconnectAttempts (hook (exec (connectToDevice ble deviceId attempts) w)) =
           if connectSucceeds ble deviceId (now w) then 0%nat
           else reconnectAttempts (hook w))
  /\ (forall w events,
         reconnectAttempts (hook (exec (scanDevices ;; deliver events) w)) =
           reconnectAttempts (hook w))
  /\ (forall closure deviceId w,
         (forall t, connectSucceeds ble deviceId t = true) ->
         reconnectAttempts (hook (exec (switchToDevice ble closure deviceId) w)) = 0%nat).
Proof.
  split; [|split; [|split]].
  - apply handleDisconnect_counter.
  - apply connectToDevice_counter.
  - intros w events. rewrite exec_seq. unfold deliver.
    assert (forall w0, reconnectAttempts
              (hook (exec (forEach (fun ev => scanListener ev.1 ev.2) events) w0))
            = reconnectAttempts (hook w0)) as H.
    { induction events as [|[e d] events IH]; intros w0; [reflexivity|].
      rewrite exec_forEach_cons, IH.
      destruct e as [e|], d as [d|]; try reflexivity.
      cbn. destruct (truthy (dev_name d)); reflexivity. }
    rewrite H. reflexivity.
  - intros closure deviceId w Hok. unfold switchToDevice.
    rewrite exec_seq, exec_seq.
    destruct (connectedDevice closure) as [connected|].
    + rewrite exec_seq. cbn -[connectToDevice handleDisconnect].
      rewrite connectToDevice_counter, Hok. reflexivity.
    + cbn -[connectToDevice]. rewrite connectToDevice_counter, Hok. reflexivity.
Qed.

Lemma reconnect_counter_moves_witness :
  (forall t, connectSucceeds flakyStack "CC:DD" t = true)
  /\ reconnectAttempts
       (hook (exec (switchToDevice flakyStack (hook connectedWorld) "CC:DD") connectedWorld))
     = 0%nat.
Proof.
  split; [exact (fun t => eq_refl)|].
  destruct (reconnect_counter_moves flakyStack) as (_ & _ & _ & H).
  apply H. exact (fun t => eq_refl).
Defined.

(** C2 as stated fails: the user taps Disconnect on the connected
    thermometer (counter 0, auto-reconnect enabled); the handler adds one to
    the counter and registers a reconnect. *)
Lemma user_disconnect_increments_counter :
  let w := connectedWorld in
  let w' := exec (handleDisconnect flakyStack (hook w) "AA:BB") w in
  connectedDevice (hook w) = Some thermometer
  /\ shouldReconnect (hook w) = true
  /\ reconnectAttempts (hook w) = 0%nat
  /\ reconnectAttempts (hook w') = 1%nat
  /\ timers w' = [(2115%nat, ("AA:BB", 0%nat))].
Proof. vm_compute. repeat split. Qed.

(** ** Switching devices *)

(** Whenever the render that created [switchToDevice] has a connected
    device, auto-reconnect enabled and fewer than 3 attempts counted, and
    the cancellation resolves, the switch registers a reconnect to the
    device it leaves: [setShouldReconnect(false)] does not reach the
    [shouldReconnect] that [handleDisconnect] closed over. *)
Lemma switchToDevice_stale_closure ble (closure : HookState) (old : Device)
    deviceId (w : World) :
  connectedDevice closure = Some old ->
  shouldReconnect closure = true ->
  (reconnectAttempts closure < MAX_RECONNECT_ATTEMPTS)%nat ->
  cancel_result ble (dev_id old) (now w) = true ->
  let w' := exec (switchToDevice ble closure deviceId) w in
  exists t es,
    since w w' =
      [(now w, SetShouldReconnect false); (now w, SetConnectedDevice None);
       (now w, SetDeviceDetails None); (now w, CancelDeviceConnection (dev_id old));
       (t, IncReconnectAttempts); (t, SetTimeout (dev_id old) 0 2000)] ++ es.
Proof.
  intros Hc Hs Hn Hk w'.
  assert (emits (fun _ => True)
            (connectToDevice ble deviceId 0 ;; act (SetShouldReconnect true))) as Hrest.
  { unfold connectToDevice, tryCatchFinally, consoleError. emits_tac. }
  apply Nat.ltb_lt in Hn.
  set (w1 := exec (act (SetShouldReconnect false) ;; handleDisconnect ble closure (dev_id old)) w).
  destruct (Hrest w1) as (es & Hl & _ & _).
  exists (now w + cancel_latency ble (dev_id old) (now w))%nat, es.
  apply since_app.
  assert (w' = exec (connectToDevice ble deviceId 0 ;; act (SetShouldReconnect true)) w1) as ->.
  { unfold w', w1, switchToDevice. rewrite Hc. by rewrite !exec_seq. }
  unfold exec at 1.
  rewrite Hl. unfold w1, handleDisconnect. rewrite Hs, Hn. run. rewrite Hk. cbn.
  rewrite <- !app_assoc. reflexivity.
Qed.

(** C1 at a state the code reaches.  With the thermometer connected, the
    user taps Connect on the scale.  The four steps come in the stated
    order and the scale becomes the connected device, but between the
    cancellation and the new connection the handler registers a reconnect
    to the thermometer; when that timer fires, the thermometer is
    connected again and replaces the scale as the connected device. *)
Theorem switch_reconnects_to_old_device :
  let w := connectedWorld in
  let w' := exec (switchToDevice flakyStack (hook w) "CC:DD") w in
  connectedDevice (hook w) = Some thermometer
  /\ (List.filter isLifecycleStep (since w w')).*2 =
       [SetShouldReconnect false; CancelDeviceConnection "AA:BB";
        SetTimeout "AA:BB" 0 2000; BleConnectToDevice "CC:DD";
        SetShouldReconnect true]
  /\ connectedDevice (hook w') = Some scale
  /\ timers w' = [(2115%nat, ("AA:BB", 0%nat))]
  /\ connectedDevice (hook (runTimers flakyStack 1 w')) = Some thermometer.
Proof. vm_compute. repeat split. Qed.

(** ** The battery reading *)

Lemma hexPrefix_value (s : string) (acc : Z) :
  isHexString s ->
  hexPrefix (Some acc) s = Some (acc * 16 ^ Z.of_nat (String.length s) + hexValue s).
Proof.
  revert acc. induction s as [|c s IH]; intros acc Hs.
  - simpl. f_equal. lia.
  - inversion Hs as [|? ? [d Hd] Hrest]; subst.
    cbn [hexPrefix hexValue String.length]. rewrite Hd. cbn [default].
    rewrite IH by exact Hrest. f_equal.
    rewrite Nat2Z.inj_succ, Z.pow_succ_r by lia. unfold id. ring.
Qed.

Lemma parseInt16_unsigned (c : Ascii.ascii) (v : string) :
  is_Some (hexDigit c) ->
  parseInt16 (String c v) =
    match hexPrefix None (stripHexMarker (String c v)) with
    | None => NaN
    | Some mathInt => Num (1 * mathInt)
    end.
Proof.
  intros [d Hd].
  destruct c as [[] [] [] [] [] [] [] []]; try discriminate Hd; reflexivity.
Qed.

Lemma stripHexMarker_hex (s : string) : isHexString s -> stripHexMarker s = s.
Proof.
  destruct s as [|c [|c' v]]; intros Hs.
  - reflexivity.
  - destruct c as [[] [] [] [] [] [] [] []]; reflexivity.
  - inversion Hs as [|? ? _ Hrest]; subst.
    inversion Hrest as [|? ? [d Hd] _]; subst.
    destruct c' as [[] [] [] [] [] [] [] []]; try discriminate Hd;
      destruct c as [[] [] [] [] [] [] [] []]; reflexivity.
Qed.

Lemma parseInt16_hex (v : string) :
  v <> EmptyString -> isHexString v -> parseInt16 v = Num (hexValue v).
Proof.
  destruct v as [|c v]; [congruence|]. intros _ Hs.
  inversion Hs as [|? ? Hc Hrest]; subst.
  rewrite parseInt16_unsigned by exact Hc.
  rewrite stripHexMarker_hex by exact Hs.
  destruct Hc as [d Hd]. cbn [hexPrefix hexValue]. rewrite Hd. cbn [default].
  rewrite hexPrefix_value by exact Hrest.
  f_equal. unfold id. ring.
Qed.

(** C7. The reading looks up service 180F in the detail map, takes the
    first characteristic 2A19 of that service and parses its value as a
    hexadecimal integer: a value made of hexadecimal digits that denotes a
    number below 2^53 (where a double holds every integer) gives that
    number, and the value 64 gives 100.  Without a detail, a map, the
    service, the characteristic or a (non-empty) value the result is
    [undefined]; the function has a result in every case. *)
Theorem battery_level_reading :
  getBatteryLevel None = None
  /\ (forall details,
         characteristics details = None -> getBatteryLevel (Some details) = None)
  /\ (forall details byUUID,
         characteristics details = Some byUUID ->
         match byUUID !! "180F" with
         | None => getBatteryLevel (Some details) = None
         | Some batteryCharacteristics =>
             match List.find (fun c => String.eqb (chr_uuid c) "2A19")
                             batteryCharacteristics with
             | None => getBatteryLevel (Some details) = None
             | Some c =>
                 match chr_value c with
                 | None => getBatteryLevel (Some details) = None
                 | Some v =>
                     (v = EmptyString -> getBatteryLevel (Some details) = None)
                     /\ (v = "64" -> getBatteryLevel (Some details) = Some (Num 100))
                     /\ (v <> EmptyString -> isHexString v -> hexValue v < 2 ^ 53 ->
                         getBatteryLevel (Some details) = Some (Num (hexValue v)))
                 end
             end
         end).
Proof.
  split; [reflexivity|]. split.
  - intros details H. unfold getBatteryLevel. by rewrite H.
  - intros details byUUID H. unfold getBatteryLevel. rewrite H.
    destruct (byUUID !! "180F") as [cs|]; [|reflexivity].
    destruct (List.find _ cs) as [c|]; [|reflexivity].
    destruct (chr_value c) as [v|]; [|reflexivity].
    split; [|split].
    + intros ->. reflexivity.
    + intros ->. reflexivity.
    + intros Hne Hhex _. destruct v as [|a v]; [congruence|].
      simpl. f_equal. by apply parseInt16_hex.
Qed.

Lemma battery_level_reading_witness :
  getBatteryLevel (Some (detailWithBattery (Some "64"))) = Some (Num 100)
  /\ getBatteryLevel (Some (detailWithBattery None)) = None.
Proof.
  destruct battery_level_reading as (_ & _ & H). split.
  - pose proof (H (detailWithBattery (Some "64")) _ eq_refl) as H64.
    vm_compute in H64. destruct H64 as (_ & H64 & _). exact (H64 eq_refl).
  - pose proof (H (detailWithBattery None) _ eq_refl) as Hnone.
    vm_compute in Hnone. exact Hnone.
Defined.

(** C9. When the battery reading of the connected device is the number 0,
    the list item of that device prints NA after [Battery:], the very text
    it prints when there is no reading: the conditional of the item takes 0
    for absent. *)
Theorem zero_battery_prints_NA (s : HookState) (item : Device) :
  itemBatteryLevel s item = Some (Num 0) ->
  batteryText (itemBatteryLevel s item) = "NA"
  /\ batteryText (itemBatteryLevel s item) = batteryText None.
Proof. intros ->. split; reflexivity. Qed.

Lemma zero_battery_prints_NA_witness :
  itemBatteryLevel drainedState thermometer = Some (Num 0)
  /\ batteryText (itemBatteryLevel drainedState thermometer) = "NA"
  /\ batteryText (itemBatteryLevel drainedState thermometer) = batteryText None.
Proof.
  split; [reflexivity|].
  exact (zero_battery_prints_NA drainedState thermometer eq_refl).
Defined.

(** ** The distance estimate *)

Lemma calculateDistance_unknown (pow : Q -> Q) (rssi txPower : option Z) :
  match rssi with
  | None => True
  | Some r => r = 0 \/ r < -100 \/ 0 < r
  end ->
  calculateDistance pow rssi txPower = "Unknown".
Proof.
  destruct rssi as [r|]; [|reflexivity]. unfold calculateDistance.
  destruct (Z.eqb_spec r 0); [reflexivity|].
  destruct (Z.ltb_spec r (-100)); [reflexivity|].
  destruct (Z.gtb_spec r 0); [reflexivity|]. lia.
Qed.

Lemma calculateDistance_default_txPower (pow : Q -> Q) (rssi : option Z) :
  calculateDistance pow rssi None = calculateDistance pow rssi (Some (-59)).
Proof. reflexivity. Qed.

(** C10 at a reading the code can receive: signal strength -100 dBm from a
    device that advertises a transmit power of 4 dBm.  The ratio is -25,
    below 1, so the first branch prints (-25)^10 metres without the check
    against 1000 that the second branch makes.  The same holds of the scale
    above (-72 dBm at 4 dBm), and a transmit power of 0 prints an infinite
    distance. *)
Theorem distance_beyond_1000_m_is_printed (pow : Q -> Q) :
  calculateDistance pow (Some (-100)) (Some 4) = "95367431640625.00 m"
  /\ greaterThan (parseFloat (calculateDistance pow (Some (-100)) (Some 4))) 1000 = true
  /\ calculateDistance pow (dev_rssi scale) (dev_txPowerLevel scale) = "3570467226624.00 m"
  /\ calculateDistance pow (Some (-60)) (Some 0) = "Infinity m".
Proof. repeat split; vm_compute; reflexivity. Qed.

(** ** Summaries of the callbacks *)

Lemma quiet_ret {A : Type} (a : A) : quiet (mret a : M A).
Proof. intros w. split; reflexivity. Qed.

Lemma quiet_bind {A B : Type} (m : M A) (k : A -> M B) :
  quiet m -> (forall a, quiet (k a)) -> quiet (m ≫= k).
Proof.
  intros Hm Hk w. unfold mbind, M_bind.
  destruct (Hm w) as [Hh Ht]. destruct (m w) as [a w1]. simpl in *.
  destruct (Hk a w1) as [Hh' Ht']. split; congruence.
Qed.

Lemma quiet_act (e : Effect) : isStateless e -> quiet (act e).
Proof. intros He w. destruct e; try contradiction; split; reflexivity. Qed.

Lemma quiet_getNow : quiet getNow.
Proof. intros w. split; reflexivity. Qed.

Lemma quiet_sleep (ms : nat) : quiet (sleep ms).
Proof. intros w. split; reflexivity. Qed.

Lemma quiet_waitUntil (t : nat) : quiet (waitUntil t).
Proof. intros w. split; reflexivity. Qed.

Lemma quiet_await {A : Type} (e : Effect) (result : nat -> A) (latency : nat -> nat) :
  isStateless e -> quiet (await e result latency).
Proof.
  intros He. unfold await.
  apply quiet_bind; [by apply quiet_act|]. intros _.
  apply quiet_bind; [apply quiet_getNow|]. intros t.
  apply quiet_bind; [apply quiet_sleep|]. intros _.
  apply quiet_ret.
Qed.

Lemma quiet_forEach {A : Type} (f : A -> M unit) (l : list A) :
  (forall x, quiet (f x)) -> quiet (forEach f l).
Proof.
  intros Hf. induction l as [|x l IH]; simpl.
  - apply quiet_ret.
  - apply quiet_bind; [apply Hf | intros _; apply IH].
Qed.

Lemma quiet_foldM {A B : Type} (f : B -> A -> M B) (b : B) (l : list A) :
  (forall b x, quiet (f b x)) -> quiet (foldM f b l).
Proof.
  intros Hf. revert b. induction l as [|x l IH]; intros b; simpl.
  - apply quiet_ret.
  - apply quiet_bind; [apply Hf | intros b'; apply IH].
Qed.

Lemma quiet_settleService ble (t : nat) m (service : Service) :
  quiet (settleService ble t m service).
Proof.
  unfold settleService, consoleError.
  apply quiet_bind; [apply quiet_waitUntil|]. intros _.
  destruct (characteristics_result ble service t).
  - apply quiet_ret.
  - apply quiet_bind; [by apply quiet_act | intros _; apply quiet_ret].
Qed.

(** The map the fetch builds for the services obtained at instant [t]. *)
Lemma getServicesAndCharacteristics_world ble device (w : World) :
  let w' := exec (getServicesAndCharacteristics ble device) w in
  let t := (now w + services_latency ble device (now w))%nat in
  timers w' = timers w
  /\ hook w' =
       match services_result ble device (now w) with
       | None => hook w
       | Some services =>
           applyEffect
             (SetDeviceDetails
                (Some (mkDeviceDetails services
                   (Some (foldl (fun m service =>
                                   <[svc_uuid service := recorded ble t service]> m) ∅
                                (settleOrder
                                   (fun service => characteristics_latency ble service t)
                                   services))))))
             (hook w)
       end.
Proof.
  intros w' t. unfold w', getServicesAndCharacteristics. run.
  destruct (services_result ble device (now w)) as [services|]; cbn; [|by split].
  match goal with |- context [forEach ?f ?l ?w0] =>
    pose proof (quiet_forEach f l (fun x => quiet_act (ServiceCharacteristics x) I) w0) as [Hh1 Ht1];
    destruct (forEach f l w0) as [[] w2] end.
  pose proof (foldM_settleService ble t
                (settleOrder (fun service => characteristics_latency ble service t) services)
                ∅ w2) as Hm.
  pose proof (quiet_foldM (settleService ble t) ∅
                (settleOrder (fun service => characteristics_latency ble service t) services)
                (quiet_settleService ble t) w2) as [Hh2 Ht2].
  fold t in Hm, Hh2, Ht2 |- *. destruct (foldM _ _ _ w2) as [m w3]. cbn in *.
  subst m. rewrite Ht2, Ht1, Hh2, Hh1. by split.
Qed.

Lemma connectToDevice_succeeded ble deviceId attempts device (w : World) :
  connect_result ble deviceId (now w) = Some device ->
  discover_result ble device (now w + connect_latency ble deviceId (now w)) = true ->
  let w' := exec (connectToDevice ble deviceId attempts) w in
  let t1 := (now w + connect_latency ble deviceId (now w))%nat in
  let t2 := (t1 + discover_latency ble device t1)%nat in
  let t3 := (t2 + services_latency ble device t2)%nat in
  timers w' = timers w
  /\ hook w' =
       mkHookState (devices (hook w)) (Some device)
         match services_result ble device t2 with
         | None => deviceDetails (hook w)
         | Some services =>
             Some (mkDeviceDetails services
                     (Some (foldl (fun m service =>
                                     <[svc_uuid service := recorded ble t3 service]> m) ∅
                                  (settleOrder
                                     (fun service => characteristics_latency ble service t3)
                                     services))))
         end
         false (shouldReconnect (hook w)) 0.
Proof.
  intros Hc Hd w' t1 t2 t3. unfold w', connectToDevice.
  destruct (attempts <? MAX_RECONNECT_ATTEMPTS - 1)%nat; run; rewrite Hc; cbn;
    rewrite Hd; cbn;
    match goal with |- context [getServicesAndCharacteristics ble device ?w0] =>
      pose proof (getServicesAndCharacteristics_world ble device w0) as [Ht Hh];
      unfold exec in Ht, Hh;
      destruct (getServicesAndCharacteristics ble device w0) as [[] w3]
    end; cbn in *; rewrite Ht, Hh; fold t1 t2 t3;
    (split; [reflexivity|]);
    destruct (services_result ble device t2); reflexivity.
Qed.

Lemma connectToDevice_failed ble deviceId attempts (w : World) :
  connectSucceeds ble deviceId (now w) = false ->
  let w' := exec (connectToDevice ble deviceId attempts) w in
  hook w' = applyEffect (SetIsConnecting false) (hook w)
  /\ timers w' =
       timers w ++ (if (attempts <? 2)%nat
                    then [((failureTime ble deviceId (now w) + 2000)%nat,
                           (deviceId, (attempts + 1)%nat))]
                    else []).
Proof.
  intros Hf. destruct (failed_attempt ble deviceId attempts w Hf) as (Hh & _ & Ht & _).
  by split.
Qed.

Lemma handleDisconnect_world ble (closure : HookState) deviceId (w : World) :
  let w' := exec (handleDisconnect ble closure deviceId) w in
  let reconnect := cancel_result ble deviceId (now w)
                   && shouldReconnect closure
                   && (reconnectAttempts closure <? MAX_RECONNECT_ATTEMPTS)%nat in
  hook w' =
    mkHookState (devices (hook w)) None None (isConnecting (hook w))
                (shouldReconnect (hook w))
                (if reconnect then (reconnectAttempts (hook w) + 1)%nat
                 else reconnectAttempts (hook w))
  /\ timers w' =
       timers w ++ (if reconnect
                    then [((now w + cancel_latency ble deviceId (now w) + 2000)%nat,
                           (deviceId, 0%nat))]
                    else []).
Proof.
  unfold handleDisconnect.
  destruct (reconnectAttempts closure <? MAX_RECONNECT_ATTEMPTS)%nat;
    run; destruct (cancel_result ble deviceId (now w)), (shouldReconnect closure);
    cbn; split; by rewrite ?app_nil_r.
Qed.

(** ** Invariants of the event loop *)

Lemma dom_settled (val : Service -> list Characteristic) (l : list Service)
    (m0 : gmap string (list Characteristic)) :
  dom (foldl (fun m service => <[svc_uuid service := val service]> m) m0 l)
  = dom m0 ∪ list_to_set (svc_uuid <$> l).
Proof.
  revert m0. induction l as [|x l IH]; intros m0; simpl.
  - set_solver.
  - rewrite IH, dom_insert_L. set_solver.
Qed.

Lemma settleOrder_uuids (latency : Service -> nat) (l : list Service) :
  list_to_set (svc_uuid <$> settleOrder latency l) =@{gset string} list_to_set (svc_uuid <$> l).
Proof.
  apply set_eq. intros u. rewrite !elem_of_list_to_set, !list_elem_of_fmap.
  split; intros (s & -> & Hs); exists s; (split; [reflexivity|]);
    by apply (settleOrder_elem latency s l).
Qed.

Lemma fetched_wellFormed (val : Service -> list Characteristic)
    (latency : Service -> nat) (services : list Service) :
  wellFormedDetails
    (Some (mkDeviceDetails services
             (Some (foldl (fun m service => <[svc_uuid service := val service]> m) ∅
                          (settleOrder latency services))))).
Proof.
  eexists. split; [reflexivity|]. simpl.
  rewrite dom_settled, settleOrder_uuids, dom_empty_L. set_solver.
Qed.

Lemma settled_flag (flag : bool) (w : World) :
  settled w -> settled (exec (act (SetShouldReconnect flag)) w).
Proof. intros (H1 & H2 & H3 & H4). repeat split; assumption. Qed.

Lemma settled_connect ble deviceId attempts (w : World) :
  (attempts <= 2)%nat ->
  settled w ->
  settled (exec (connectToDevice ble deviceId attempts) w).
Proof.
  intros Hn (H1 & H2 & H3 & H4).
  destruct (connectSucceeds ble deviceId (now w)) eqn:Hok.
  - unfold connectSucceeds in Hok.
    destruct (connect_result ble deviceId (now w)) as [device|] eqn:Hc; [|discriminate].
    destruct (connectToDevice_succeeded ble deviceId attempts device w Hc Hok) as [Ht Hh].
    unfold settled. rewrite Ht, Hh. simpl.
    repeat split; try assumption.
    destruct (services_result ble device _); [apply fetched_wellFormed | assumption].
  - destruct (connectToDevice_failed ble deviceId attempts w Hok) as [Hh Ht].
    unfold settled. rewrite Ht, Hh. simpl.
    repeat split; try assumption.
    apply Forall_app. split; [assumption|].
    destruct (Nat.ltb_spec attempts 2); [|constructor].
    constructor; [simpl; lia | constructor].
Qed.

Lemma settled_disconnect ble (closure : HookState) deviceId (w : World) :
  settled w ->
  settled (exec (handleDisconnect ble closure deviceId) w).
Proof.
  intros (H1 & H2 & H3 & H4).
  destruct (handleDisconnect_world ble closure deviceId w) as [Hh Ht].
  unfold settled. rewrite Ht, Hh. simpl.
  repeat split; try assumption.
  apply Forall_app. split; [assumption|].
  destruct (_ && _); [|constructor].
  constructor; [simpl; lia | constructor].
Qed.

Lemma settled_switch ble (closure : HookState) (w : World) deviceId :
  settled w ->
  settled (exec (switchToDevice ble closure deviceId) w).
Proof.
  intros Hw. unfold switchToDevice. rewrite !exec_seq.
  apply settled_flag.
  pose proof (settled_flag false w Hw) as Hw1.
  destruct (connectedDevice closure) as [connected|].
  - rewrite exec_seq. apply settled_connect; [lia|].
    by apply settled_disconnect.
  - apply settled_connect; [lia | exact Hw1].
Qed.

Lemma settled_scanDevices (w : World) : settled w -> settled (exec scanDevices w).
Proof.
  intros (H1 & H2 & H3 & H4).
  repeat split; simpl; try assumption; constructor.
Qed.

Lemma settled_scanListener (w : World) error device :
  settled w -> settled (exec (scanListener error device) w).
Proof.
  intros Hw. destruct error as [e|]; [exact Hw|].
  destruct device as [d|]; [|exact Hw]. simpl.
  destruct (truthy (dev_name d)) eqn:Hn; [|exact Hw].
  destruct Hw as (H1 & H2 & H3 & H4).
  repeat split; simpl; try assumption.
  - destruct (isDuplicate (devices (hook w)) d) eqn:Hdup; simpl; [assumption|].
    rewrite fmap_app. apply NoDup_app. split; [assumption|]. split.
    + intros x Hx Hx'. apply list_elem_of_singleton in Hx'. subst x.
      apply isDuplicate_elem in Hx. congruence.
    + apply NoDup_singleton.
  - destruct (isDuplicate (devices (hook w)) d); simpl; [assumption|].
    apply Forall_app. split; [assumption|]. by constructor.
Qed.

Lemma settled_fireTimer ble (w w' : World) :
  settled w -> fireTimer ble w = Some w' -> settled w'.
Proof.
  intros Hw. unfold fireTimer.
  destruct (timers w !! earliest (timers w)) as [[due [deviceId attempts]]|] eqn:Ht;
    [|discriminate].
  intros [= <-].
  destruct Hw as (H1 & H2 & H3 & H4).
  apply settled_connect.
  - rewrite Forall_forall in H4.
    apply (H4 (due, (deviceId, attempts))). by eapply list_elem_of_lookup_2.
  - repeat split; simpl; try assumption.
    by apply Forall_delete.
Qed.

Lemma settled_dispatch ble (ev : Event) (w : World) :
  settled w -> settled (dispatch ble ev w).
Proof.
  intros Hw. destruct ev as [|error device|index|error device|]; simpl.
  - by apply settled_scanDevices.
  - by apply settled_scanListener.
  - destruct (devices (hook w) !! index) as [item|]; [|exact Hw].
    unfold pressItemButton.
    destruct (isConnecting (hook w) && isConnectedItem (hook w) item); [exact Hw|].
    destruct (isConnectedItem (hook w) item).
    + by apply settled_disconnect.
    + by apply settled_switch.
  - destruct (connectedDevice (hook w)) as [connected|]; [|exact Hw].
    destruct error as [e|]; [exact Hw|].
    destruct device as [d|]; [|exact Hw]. simpl.
    by apply settled_disconnect.
  - destruct (fireTimer ble w) as [w'|] eqn:Hf; [|exact Hw].
    by eapply settled_fireTimer.
Qed.

Lemma settled_runEvents ble (evs : list Event) (w : World) :
  settled w -> settled (runEvents ble evs w).
Proof.
  revert w. induction evs as [|ev evs IH]; intros w Hw; simpl; [exact Hw|].
  apply IH. by apply settled_dispatch.
Qed.

Lemma settled_freshWorld : settled freshWorld.
Proof. repeat split; simpl; constructor. Qed.

(** X1. In every world the event loop reaches from the first render, the
    registry shown in the list holds at most one device per identifier and
    only named devices, whatever scans, taps, disconnects and timers came
    before: the keys [keyExtractor] gives the list are pairwise distinct. *)
Theorem registry_invariant_of_the_loop ble (evs : list Event) :
  let registry := devices (hook (runEvents ble evs freshWorld)) in
  NoDup (dev_id <$> registry)
  /\ Forall (fun d => truthy (dev_name d) = true) registry.
Proof.
  destruct (settled_runEvents ble evs freshWorld settled_freshWorld)
    as (H1 & H2 & _).
  by split.
Qed.

(** X4. A device detail that the hook has stored maps exactly the
    identifiers of the services it lists, in every world the event loop
    reaches: the detail modal finds a characteristic list for every service
    it shows.  (Every detail the hook writes has this form, so the order in
    which handlers take turns plays no part.) *)
Theorem details_between_handlers ble (evs : list Event) :
  let s := hook (runEvents ble evs freshWorld) in
  forall details,
    deviceDetails s = Some details ->
    exists byUUID : gmap string (list Characteristic),
      characteristics details = Some byUUID
      /\ (forall service, service ∈ services details ->
                          is_Some (byUUID !! svc_uuid service))
      /\ (forall uuid, is_Some (byUUID !! uuid) ->
                       exists service, service ∈ services details
                                       /\ svc_uuid service = uuid).
Proof.
  intros s details Hd.
  destruct (settled_runEvents ble evs freshWorld settled_freshWorld)
    as (_ & _ & H3 & _).
  fold s in H3. rewrite Hd in H3.
  destruct H3 as (byUUID & Hc & Hdom). exists byUUID. split; [exact Hc|]. split.
  - intros service Hs. apply elem_of_dom. rewrite Hdom.
    apply elem_of_list_to_set, list_elem_of_fmap. by exists service.
  - intros uuid Hu. apply elem_of_dom in Hu. rewrite Hdom in Hu.
    apply elem_of_list_to_set, list_elem_of_fmap in Hu as (service & -> & Hs).
    by exists service.
Qed.

(** X5. Every timer pending between two handlers carries an attempt count
    of at most 2: [connectToDevice] is never called for a fourth try of one
    chain of retries. *)
Theorem pending_retries_are_bounded ble (evs : list Event) :
  Forall (fun timer : nat * (string * nat) => (timer.2.2 <= 2)%nat)
         (timers (runEvents ble evs freshWorld)).
Proof.
  destruct (settled_runEvents ble evs freshWorld settled_freshWorld)
    as (_ & _ & _ & H4).
  exact H4.
Qed.

Lemma details_between_handlers_witness :
  let s := hook (runEvents flakyStack sampleSession freshWorld) in
  exists details,
    deviceDetails s = Some details
    /\ exists byUUID : gmap string (list Characteristic),
         characteristics details = Some byUUID
         /\ is_Some (byUUID !! "180F") /\ is_Some (byUUID !! "180A").
Proof.
  eexists. split; [vm_compute; reflexivity|].
  destruct (details_between_handlers flakyStack sampleSession _
              ltac:(vm_compute; reflexivity)) as (byUUID & Hc & Hin & _).
  exists byUUID. split; [exact Hc|]. split.
  - apply (Hin batteryService). by left.
  - apply (Hin informationService). right. by left.
Defined.

(** X7. The automatic reconnect closes the loop.  When [handleDisconnect]
    registers a reconnect and the connection attempt made when that timer
    fires succeeds, the device is connected again with the counter back at
    0, nothing left pending and [isConnecting] false. *)
Theorem reconnect_restores_connection ble (closure : HookState) deviceId device (w : World) :
  timers w = [] ->
  shouldReconnect closure = true ->
  (reconnectAttempts closure < MAX_RECONNECT_ATTEMPTS)%nat ->
  cancel_result ble deviceId (now w) = true ->
  let due := (now w + cancel_latency ble deviceId (now w) + 2000)%nat in
  connect_result ble deviceId due = Some device ->
  discover_result ble device (due + connect_latency ble deviceId due) = true ->
  let w' := runTimers ble 1 (exec (handleDisconnect ble closure deviceId) w) in
  connectedDevice (hook w') = Some device
  /\ reconnectAttempts (hook w') = 0%nat
  /\ isConnecting (hook w') = false
  /\ timers w' = [].
Proof.
  intros Ht Hs Hn Hk due Hc Hd w'.
  destruct (handleDisconnect_world ble closure deviceId w) as [Hh1 Ht1].
  apply Nat.ltb_lt in Hn. rewrite Hk, Hs, Hn, Ht in Ht1. simpl in Ht1. fold due in Ht1.
  set (w1 := exec (handleDisconnect ble closure deviceId) w) in *.
  assert (now w1 <= due)%nat as Hnow.
  { unfold w1, due, handleDisconnect. run. rewrite Hk, Hs, Hn. cbn. lia. }
  unfold w'. simpl. unfold fireTimer. rewrite Ht1. simpl.
  rewrite Nat.max_r by exact Hnow.
  destruct (connectToDevice_succeeded ble deviceId 0 device
              (mkWorld (hook w1) due [] (log w1)) Hc Hd) as [Ht2 Hh2].
  rewrite Ht2, Hh2. by repeat split.
Qed.

Lemma reconnect_restores_connection_witness :
  let w' := runTimers flakyStack 1
              (exec (handleDisconnect flakyStack (hook connectedWorld) "AA:BB")
                    connectedWorld) in
  timers connectedWorld = []
  /\ connectedDevice (hook w') = Some thermometer
  /\ reconnectAttempts (hook w') = 0%nat.
Proof.
  split; [reflexivity|].
  destruct (reconnect_restores_connection flakyStack (hook connectedWorld) "AA:BB"
              thermometer connectedWorld eq_refl eq_refl ltac:(vm_compute; lia)
              eq_refl eq_refl eq_refl) as (Hc & Hn & _).
  split; [exact Hc | exact Hn].
Defined.

(** ** The timer queue dies out *)

Lemma earliestFrom_range (best bestDue i : nat) (ts : list (nat * (string * nat))) :
  earliestFrom best bestDue i ts = best
  \/ (i <= earliestFrom best bestDue i ts < i + length ts)%nat.
Proof.
  revert best bestDue i. induction ts as [|[due c] ts IH]; intros best bestDue i; simpl.
  - by left.
  - destruct (due <? bestDue)%nat.
    + right. destruct (IH i due (S i)) as [-> | H]; lia.
    + destruct (IH best bestDue (S i)) as [-> | H]; [by left | right; lia].
Qed.

Lemma earliest_lt (ts : list (nat * (string * nat))) :
  ts <> [] -> (earliest ts < length ts)%nat.
Proof.
  destruct ts as [|[due c] ts]; [congruence|]. intros _. simpl.
  destruct (earliestFrom_range 0 due 1 ts) as [-> | H]; lia.
Qed.

Lemma pendingFirings_app (a b : list (nat * (string * nat))) :
  pendingFirings (a ++ b) = (pendingFirings a + pendingFirings b)%nat.
Proof.
  unfold pendingFirings. induction a as [|x a IH]; simpl; [reflexivity|].
  rewrite IH. lia.
Qed.

Lemma pendingFirings_delete (ts : list (nat * (string * nat))) (i : nat) timer :
  ts !! i = Some timer ->
  pendingFirings ts = (firingsLeft timer + pendingFirings (delete i ts))%nat.
Proof.
  unfold pendingFirings. revert i. induction ts as [|x ts IH]; intros i Hi; [discriminate|].
  destruct i as [|i]; simpl in *.
  - by inversion Hi.
  - rewrite (IH i Hi). lia.
Qed.

Lemma fireTimer_decreases ble (w w' : World) :
  fireTimer ble w = Some w' ->
  (pendingFirings (timers w') < pendingFirings (timers w))%nat.
Proof.
  unfold fireTimer.
  destruct (timers w !! earliest (timers w)) as [[due [deviceId attempts]]|] eqn:Hl;
    [|discriminate].
  intros [= <-]. rewrite (pendingFirings_delete _ _ _ Hl).
  set (w0 := mkWorld (hook w) (Nat.max (now w) due) (delete (earliest (timers w)) (timers w))
                     (log w)).
  unfold firingsLeft, MAX_RECONNECT_ATTEMPTS. simpl.
  destruct (connectSucceeds ble deviceId (now w0)) eqn:Hok.
  - unfold connectSucceeds in Hok.
    destruct (connect_result ble deviceId (now w0)) as [device|] eqn:Hc; [|discriminate].
    destruct (connectToDevice_succeeded ble deviceId attempts device w0 Hc Hok) as [Ht _].
    rewrite Ht. simpl. lia.
  - destruct (connectToDevice_failed ble deviceId attempts w0 Hok) as [_ Ht].
    rewrite Ht, pendingFirings_app. simpl.
    destruct (Nat.ltb_spec attempts 2); unfold pendingFirings, firingsLeft,
      MAX_RECONNECT_ATTEMPTS; simpl; lia.
Qed.

Lemma fireTimer_none ble (w : World) : fireTimer ble w = None -> timers w = [].
Proof.
  unfold fireTimer. intros H.
  destruct (timers w) as [|x ts] eqn:Ht; [reflexivity|]. exfalso.
  assert (earliest (x :: ts) < length (x :: ts))%nat as Hlt by (by apply earliest_lt).
  apply lookup_lt_is_Some in Hlt as [[due [deviceId attempts]] Hl].
  rewrite Hl in H. discriminate.
Qed.

(** X8. Retries die out whatever the stack does.  Each pending timer
    stands for at most [3 - attempts] firings (itself and the retries its
    failures register), and once that many timers have fired the queue is
    empty and nothing fires any more. *)
Theorem retries_die_out ble (fuel : nat) (w : World) :
  (pendingFirings (timers w) <= fuel)%nat ->
  timers (runTimers ble fuel w) = []
  /\ fireTimer ble (runTimers ble fuel w) = None.
Proof.
  revert w. induction fuel as [|fuel IH]; intros w Hw.
  - assert (timers w = []) as Ht.
    { destruct (timers w) as [|x ts]; [reflexivity|].
      unfold pendingFirings, firingsLeft in Hw. simpl in Hw. lia. }
    simpl. split; [exact Ht|]. unfold fireTimer. by rewrite Ht.
  - simpl. destruct (fireTimer ble w) as [w'|] eqn:Hf.
    + apply IH. apply fireTimer_decreases in Hf. lia.
    + split; [exact (fireTimer_none ble w Hf) | exact Hf].
Qed.

Lemma retries_die_out_witness :
  let w := exec (handleDisconnect deadStack (hook connectedWorld) "AA:BB") connectedWorld in
  (pendingFirings (timers w) <= 3)%nat
  /\ timers w = [(2115%nat, ("AA:BB", 0%nat))]
  /\ timers (runTimers deadStack 3 w) = [].
Proof.
  split; [vm_compute; lia|]. split; [reflexivity|].
  destruct (retries_die_out deadStack 3
              (exec (handleDisconnect deadStack (hook connectedWorld) "AA:BB")
                    connectedWorld)
              ltac:(vm_compute; lia)) as [Ht _].
  exact Ht.
Defined.

(** ** What a connection attempt leaves behind *)

Lemma fetch_effects_filtered (es : list (nat * Effect)) :
  Forall (fun te => isFetchEffect te.2) es ->
  List.filter isStopScan es = [] /\ List.filter isTimeout es = [].
Proof.
  induction 1 as [|[t e] es He _ [IH1 IH2]]; [by split|].
  unfold isStopScan, isTimeout in *. simpl in *.
  destruct e; try contradiction; by split.
Qed.

(** X9. A connection attempt stops the scan exactly when it succeeds, at
    the instant service discovery resolves, and a successful attempt
    registers no timer; a failed attempt leaves the scan running. *)
Theorem scan_stops_iff_connection_succeeds ble deviceId attempts (w : World) :
  let w' := exec (connectToDevice ble deviceId attempts) w in
  let t1 := (now w + connect_latency ble deviceId (now w))%nat in
  if connectSucceeds ble deviceId (now w)
  then (exists device,
          connect_result ble deviceId (now w) = Some device
          /\ List.filter isStopScan (since w w') =
               [((t1 + discover_latency ble device t1)%nat, StopDeviceScan)])
       /\ List.filter isTimeout (since w w') = []
       /\ timers w' = timers w
  else List.filter isStopScan (since w w') = [].
Proof.
  intros w' t1. unfold connectSucceeds.
  destruct (connect_result ble deviceId (now w)) as [device|] eqn:Hc.
  - destruct (discover_result ble device _) eqn:Hd.
    + assert (emits isFetchEffect (getServicesAndCharacteristics ble device)) as Hfetch.
      { unfold getServicesAndCharacteristics, settleService, consoleError. emits_tac. }
      destruct (connectToDevice_succeeded ble deviceId attempts device w Hc Hd) as [Ht _].
      assert (exists es,
                 Forall (fun te => isFetchEffect te.2) es
                 /\ since w w' =
                      [(now w, SetIsConnecting true); (now w, BleConnectToDevice deviceId);
                       (t1, DiscoverAllServicesAndCharacteristics device);
                       ((t1 + discover_latency ble device t1)%nat,
                        SetConnectedDevice (Some device));
                       ((t1 + discover_latency ble device t1)%nat, StopDeviceScan)]
                      ++ es
                      ++ [(now w', SetReconnectAttempts 0); (now w', SetIsConnecting false)])
        as (es & Hp & Hs).
      { unfold w', connectToDevice.
        destruct (attempts <? MAX_RECONNECT_ATTEMPTS - 1)%nat; run; rewrite Hc; cbn;
          rewrite Hd; cbn;
          match goal with |- context [getServicesAndCharacteristics ble device ?w0] =>
            destruct (Hfetch w0) as (es & Hl & Hp & _);
            destruct (getServicesAndCharacteristics ble device w0) as [[] w3]
          end; cbn in *; exists es; (split; [exact Hp|]);
          apply since_app; cbn; rewrite Hl; cbn; rewrite <- !app_assoc; reflexivity. }
      destruct (fetch_effects_filtered es Hp) as [Hf1 Hf2].
      rewrite Hs. split; [|split; [|exact Ht]].
      * exists device. split; [reflexivity|].
        cbn. rewrite List.filter_app, Hf1. reflexivity.
      * cbn. rewrite List.filter_app, Hf2. reflexivity.
    + unfold w', connectToDevice.
      destruct (attempts <? MAX_RECONNECT_ATTEMPTS - 1)%nat;
        (erewrite since_app;
         [|run; rewrite Hc; cbn; rewrite Hd; cbn; rewrite <- !app_assoc; reflexivity]);
        reflexivity.
  - unfold w', connectToDevice.
    destruct (attempts <? MAX_RECONNECT_ATTEMPTS - 1)%nat;
      (erewrite since_app;
       [|run; rewrite Hc; cbn; rewrite <- !app_assoc; reflexivity]);
      reflexivity.
Qed.

(** X10. [handleDisconnect] is optimistic: it clears the connected device
    and the detail before the cancellation settles and they stay cleared
    when it rejects.  A rejected cancellation registers no reconnect and
    leaves the counter alone, even with auto-reconnect enabled; the
    registry and the two flags are never touched. *)
Theorem disconnect_clears_before_cancelling ble (closure : HookState) deviceId (w : World) :
  let w' := exec (handleDisconnect ble closure deviceId) w in
  connectedDevice (hook w') = None
  /\ deviceDetails (hook w') = None
  /\ devices (hook w') = devices (hook w)
  /\ isConnecting (hook w') = isConnecting (hook w)
  /\ shouldReconnect (hook w') = shouldReconnect (hook w)
  /\ (take 2 (since w w')).*2 = [SetConnectedDevice None; SetDeviceDetails None]
  /\ if cancel_result ble deviceId (now w)
     then timers w' =
            timers w ++
            (if shouldReconnect closure
                && (reconnectAttempts closure <? MAX_RECONNECT_ATTEMPTS)%nat
             then [((now w + cancel_latency ble deviceId (now w) + 2000)%nat,
                    (deviceId, 0%nat))]
             else [])
     else timers w' = timers w
          /\ reconnectAttempts (hook w') = reconnectAttempts (hook w)
          /\ last (since w w').*2 = Some (ConsoleError "Failed to disconnect").
Proof.
  intros w'. destruct (handleDisconnect_world ble closure deviceId w) as [Hh Ht].
  fold w' in Hh, Ht. rewrite Hh, Ht. simpl.
  repeat split.
  - unfold w', handleDisconnect.
    destruct (reconnectAttempts closure <? MAX_RECONNECT_ATTEMPTS)%nat;
      destruct (cancel_result ble deviceId (now w)) eqn:Hk, (shouldReconnect closure);
      (erewrite since_app;
       [|run; rewrite Hk; cbn; rewrite <- !app_assoc; reflexivity]); reflexivity.
  - destruct (cancel_result ble deviceId (now w)) eqn:Hk.
    + reflexivity.
    + simpl. rewrite app_nil_r. repeat split.
      unfold w', handleDisconnect.
      destruct (reconnectAttempts closure <? MAX_RECONNECT_ATTEMPTS)%nat;
        destruct (shouldReconnect closure);
        (erewrite since_app;
         [|run; rewrite Hk; cbn; rewrite <- !app_assoc; reflexivity]); reflexivity.
Qed.

(** ** The detail map *)

Lemma NoDup_fmap_eq {A B : Type} (f : A -> B) (l : list A) (x y : A) :
  NoDup (f <$> l) -> x ∈ l -> y ∈ l -> f x = f y -> x = y.
Proof.
  induction l as [|a l IH]; intros Hnd Hx Hy Hf; [by apply elem_of_nil in Hx|].
  rewrite fmap_cons in Hnd. apply NoDup_cons in Hnd as [Hnotin Hnd].
  apply elem_of_cons in Hx as [-> | Hx]; apply elem_of_cons in Hy as [-> | Hy].
  - reflexivity.
  - exfalso. apply Hnotin. rewrite Hf. apply list_elem_of_fmap. by exists y.
  - exfalso. apply Hnotin. rewrite <- Hf. apply list_elem_of_fmap. by exists x.
  - by apply IH.
Qed.

(** X11. When the services of a device carry pairwise distinct
    identifiers, the detail the fetch stores does not depend on the order
    in which the per-service discoveries settle: its map has, for each
    service, the entry of that service and nothing else. *)
Theorem detail_ignores_settling_order ble device services (w : World) :
  services_result ble device (now w) = Some services ->
  NoDup (svc_uuid <$> services) ->
  let t := (now w + services_latency ble device (now w))%nat in
  deviceDetails (hook (exec (getServicesAndCharacteristics ble device) w)) =
    Some (mkDeviceDetails services (Some (entriesOf ble t services))).
Proof.
  intros Hs Hnd t.
  rewrite (getServicesAndCharacteristics_details ble device services w Hs). fold t.
  do 3 f_equal. apply map_eq. intros u. unfold entriesOf.
  destruct (decide (u ∈ svc_uuid <$> services)) as [Hin|Hout].
  - apply list_elem_of_fmap in Hin as (s & -> & Hin).
    rewrite (lookup_settled (recorded ble t) _ _ (svc_uuid s) (recorded ble t s)).
    + symmetry. apply elem_of_list_to_map_1.
      * rewrite <- list_fmap_compose. exact Hnd.
      * apply list_elem_of_fmap. by exists s.
    + intros s' Hs' Hu. f_equal. apply settleOrder_elem in Hs'.
      by apply (NoDup_fmap_eq svc_uuid services).
    + right. exists s. split; [by apply settleOrder_elem | reflexivity].
  - transitivity (@None (list Characteristic)).
    + apply not_elem_of_dom. rewrite dom_settled, settleOrder_uuids, dom_empty_L.
      rewrite elem_of_union, elem_of_list_to_set. intros [H|H]; [set_solver | contradiction].
    + symmetry. apply not_elem_of_list_to_map_1. by rewrite <- list_fmap_compose.
Qed.

Lemma detail_ignores_settling_order_witness :
  services_result flakyStack thermometer (now freshWorld)
    = Some [batteryService; informationService]
  /\ NoDup (svc_uuid <$> [batteryService; informationService])
  /\ deviceDetails (hook (exec (getServicesAndCharacteristics flakyStack thermometer)
                               freshWorld))
     = Some (mkDeviceDetails [batteryService; informationService]
               (Some (entriesOf flakyStack 5 [batteryService; informationService]))).
Proof.
  split; [reflexivity|].
  assert (NoDup (svc_uuid <$> [batteryService; informationService])) as Hnd.
  { apply (bool_decide_unpack _). vm_compute. exact I. }
  split; [exact Hnd|].
  exact (detail_ignores_settling_order flakyStack thermometer
           [batteryService; informationService] freshWorld eq_refl Hnd).
Defined.

(** ** Advertisement events *)

Lemma deliver_frame (events : list (option string * option Device)) (w : World) :
  let w' := exec (deliver events) w in
  connectedDevice (hook w') = connectedDevice (hook w)
  /\ deviceDetails (hook w') = deviceDetails (hook w)
  /\ isConnecting (hook w') = isConnecting (hook w)
  /\ shouldReconnect (hook w') = shouldReconnect (hook w)
  /\ reconnectAttempts (hook w') = reconnectAttempts (hook w)
  /\ timers w' = timers w
  /\ now w' = now w.
Proof.
  revert w. unfold deliver. induction events as [|[e d] events IH]; intros w.
  - by repeat split.
  - cbn zeta. rewrite exec_forEach_cons.
    destruct (IH (exec (scanListener (e, d).1 (e, d).2) w))
      as (H1 & H2 & H3 & H4 & H5 & H6 & H7).
    rewrite H1, H2, H3, H4, H5, H6, H7.
    destruct e as [e|], d as [d|]; try by repeat split.
    cbn. destruct (truthy (dev_name d)); by repeat split.
Qed.

Lemma hook_eta (s s' : HookState) :
  devices s = devices s' -> connectedDevice s = connectedDevice s' ->
  deviceDetails s = deviceDetails s' -> isConnecting s = isConnecting s' ->
  shouldReconnect s = shouldReconnect s' -> reconnectAttempts s = reconnectAttempts s' ->
  s = s'.
Proof. destruct s, s'. simpl. by intros -> -> -> -> -> ->. Qed.

Lemma deliver_hook_ext (events events' : list (option string * option Device)) (w : World) :
  discovered events = discovered events' ->
  hook (exec (deliver events) w) = hook (exec (deliver events') w).
Proof.
  intros Hd.
  destruct (deliver_frame events w) as (H1 & H2 & H3 & H4 & H5 & _).
  destruct (deliver_frame events' w) as (H1' & H2' & H3' & H4' & H5' & _).
  apply hook_eta; try congruence.
  by rewrite !deliver_devices, Hd.
Qed.

Lemma discovered_app (a b : list (option string * option Device)) :
  discovered (a ++ b) = discovered a ++ discovered b.
Proof. unfold discovered. apply omap_app. Qed.

(** X12. A scan error, an event without a device and the advertisement of
    an unnamed device change no state cell and do not end the scan: the
    state after a run of events is the same with such an event taken out,
    wherever it stood. *)
Theorem scan_skips_bad_events (before after : list (option string * option Device))
    (bad : option string * option Device) (w : World) :
  match bad with
  | (Some _, _) => True
  | (None, None) => True
  | (None, Some device) => truthy (dev_name device) = false
  end ->
  hook (exec (deliver (before ++ bad :: after)) w) = hook (exec (deliver (before ++ after)) w).
Proof.
  intros Hbad. apply deliver_hook_ext.
  rewrite !discovered_app, discovered_cons.
  assert (discovered [bad] = []) as ->; [|reflexivity].
  destruct bad as [[e|] [d|]]; try reflexivity.
  unfold discovered. simpl. by rewrite Hbad.
Qed.

Lemma scan_skips_bad_events_witness :
  truthy (dev_name (mkDevice "EE:FF" None (Some (-40)) None)) = false
  /\ hook (exec (deliver [(None, Some thermometer);
                          (None, Some (mkDevice "EE:FF" None (Some (-40)) None));
                          (None, Some scale)]) freshWorld)
     = hook (exec (deliver [(None, Some thermometer); (None, Some scale)]) freshWorld).
Proof.
  split; [reflexivity|].
  exact (scan_skips_bad_events [(None, Some thermometer)] [(None, Some scale)]
           (None, Some (mkDevice "EE:FF" None (Some (-40)) None)) freshWorld eq_refl).
Defined.

(** X13. Advertisement events only ever add to the end of the registry:
    what was listed stays listed, in place, and the connected device, the
    detail, the flags, the counter, the pending timers and the clock are
    left as they were, so a running scan does not disturb a connection. *)
Theorem scan_only_appends (events : list (option string * option Device)) (w : World) :
  let w' := exec (deliver events) w in
  devices (hook w) `prefix_of` devices (hook w')
  /\ connectedDevice (hook w') = connectedDevice (hook w)
  /\ deviceDetails (hook w') = deviceDetails (hook w)
  /\ isConnecting (hook w') = isConnecting (hook w)
  /\ shouldReconnect (hook w') = shouldReconnect (hook w)
  /\ reconnectAttempts (hook w') = reconnectAttempts (hook w)
  /\ timers w' = timers w
  /\ now w' = now w.
Proof.
  intros w'. split; [|apply deliver_frame].
  unfold w'. rewrite deliver_devices. by eexists.
Qed.

Lemma firstSeen_known (seen : gset string) (ds : list Device) :
  Forall (fun d => dev_id d ∈ seen) ds -> firstSeen seen ds = [].
Proof.
  induction 1 as [|d ds Hd _ IH]; simpl; [reflexivity|].
  by rewrite decide_True.
Qed.

Lemma firstSeen_covers (seen : gset string) (ds : list Device) (d : Device) :
  d ∈ ds -> dev_id d ∈ seen ∪ list_to_set (dev_id <$> firstSeen seen ds).
Proof.
  revert seen. induction ds as [|x ds IH]; intros seen Hd; [by apply elem_of_nil in Hd|].
  simpl. destruct (decide (dev_id x ∈ seen)) as [Hx|Hx].
  - apply elem_of_cons in Hd as [-> | Hd]; [set_solver | by apply IH].
  - apply elem_of_cons in Hd as [-> | Hd]; [set_solver|].
    specialize (IH ({[dev_id x]} ∪ seen) Hd). set_solver.
Qed.

Lemma firstSeen_app (seen : gset string) (a b : list Device) :
  firstSeen seen (a ++ b) =
    firstSeen seen a ++ firstSeen (seen ∪ list_to_set (dev_id <$> firstSeen seen a)) b.
Proof.
  revert seen. induction a as [|x a IH]; intros seen; simpl.
  - by rewrite union_empty_r_L.
  - destruct (decide (dev_id x ∈ seen)) as [Hx|Hx]; [apply IH|].
    simpl. rewrite IH. f_equal. f_equal.
    assert ({[dev_id x]} ∪ seen ∪ list_to_set (dev_id <$> firstSeen ({[dev_id x]} ∪ seen) a)
            = seen ∪ ({[dev_id x]}
                      ∪ list_to_set (dev_id <$> firstSeen ({[dev_id x]} ∪ seen) a))
              :> gset string) as ->; [set_solver | reflexivity].
Qed.

(** X14. Delivering again events that were already delivered changes
    nothing: once an identifier is in the registry, no later advertisement
    of it has any effect on the state. *)
Theorem scan_redelivery_is_idle (events : list (option string * option Device)) (w : World) :
  hook (exec (deliver (events ++ events)) w) = hook (exec (deliver events) w).
Proof.
  destruct (deliver_frame (events ++ events) w) as (H1 & H2 & H3 & H4 & H5 & _).
  destruct (deliver_frame events w) as (H1' & H2' & H3' & H4' & H5' & _).
  apply hook_eta; try congruence.
  rewrite !deliver_devices, discovered_app, firstSeen_app. f_equal.
  rewrite (firstSeen_known (_ ∪ _)); [by rewrite app_nil_r|].
  apply Forall_forall. intros d Hd. by apply firstSeen_covers.
Qed.

(** X15. [isDuplicate] answers whether the registry already holds a device
    with the identifier of the advertised one; name, signal strength and
    transmit power play no part. *)
Theorem isDuplicate_compares_identifiers (devices : list Device) (nextDevice : Device) :
  isDuplicate devices nextDevice = true
  <-> exists device, device ∈ devices /\ dev_id device = dev_id nextDevice.
Proof.
  rewrite isDuplicate_elem, list_elem_of_fmap. split.
  - intros (device & Hid & Hin). by exists device.
  - intros (device & Hin & Hid). by exists device.
Qed.

(** ** What a list item prints *)

(** X16. When the battery reading lies below 2^53 in magnitude (where the
    double of the source is the integer itself), the battery text of a list
    item is NA or a non-zero integer followed by a percent sign, the latter
    only for the connected item and with the number its battery
    characteristic parses to: such an item never shows NaN, 0 or the
    reading of another device. *)
Theorem battery_text_format (s : HookState) (item : Device) :
  match getBatteryLevel (deviceDetails s) with
  | Some (Num z) => Z.abs z < 2 ^ 53
  | _ => True
  end ->
  let text := batteryText (itemBatteryLevel s item) in
  text = "NA"
  \/ exists z, z <> 0
       /\ Z.abs z < 2 ^ 53
       /\ text = pretty z +:+ "%"
       /\ isConnectedItem s item = true
       /\ getBatteryLevel (deviceDetails s) = Some (Num z).
Proof.
  unfold itemBatteryLevel, isConnectedItem. intros Hsmall.
  destruct (connectedDevice s) as [connected|]; [|by left].
  destruct (String.eqb (dev_id connected) (dev_id item)); [|by left].
  destruct (getBatteryLevel (deviceDetails s)) as [[|z]|]; [by left | | by left].
  unfold batteryText. simpl. destruct (Z.eqb_spec z 0) as [->|Hz]; [by left|].
  right. exists z. by repeat split.
Qed.

Lemma battery_text_format_witness :
  getBatteryLevel (deviceDetails chargedState) = Some (Num 100)
  /\ Z.abs 100 < 2 ^ 53
  /\ batteryText (itemBatteryLevel chargedState thermometer) = "100%"
  /\ batteryText (itemBatteryLevel chargedState scale) = "NA".
Proof.
  split; [reflexivity|]. split; [reflexivity|].
  destruct (battery_text_format chargedState thermometer ltac:(reflexivity))
    as [H | (z & _ & _ & H & _)]; [discriminate H|].
  split; [reflexivity|].
  destruct (battery_text_format chargedState scale ltac:(reflexivity))
    as [H' | (z' & _ & _ & _ & H' & _)]; [exact H' | discriminate H'].
Defined.

Lemma short_distance_table (k : nat) :
  (k <= 100)%nat ->
  let n := Z.of_nat k in
  greaterThan (parseFloat (pretty (n / 100) +:+ "." +:+ twoDigits (n mod 100))) 1000 = false.
Proof.
  intros Hk.
  assert (forallb (fun k =>
            let n := Z.of_nat k in
            negb (greaterThan (parseFloat (pretty (n / 100) +:+ "." +:+ twoDigits (n mod 100)))
                              1000))
          (seq 0 101) = true) as H by (vm_compute; reflexivity).
  rewrite forallb_forall in H. specialize (H k).
  simpl. apply negb_true_iff, H. apply in_seq. lia.
Qed.

Lemma ratio_of_negatives (r tx : Z) :
  r < 0 -> tx < 0 -> (0 <= inject_Z r / inject_Z tx)%Q.
Proof.
  intros Hr Htx. destruct tx as [|p|p]; try lia. destruct r as [|a|a]; try lia.
  unfold Qle, Qdiv, Qmult, Qinv, inject_Z. simpl. lia.
Qed.

Lemma tenth_power_below_one (q : Q) : (0 <= q)%Q -> (q <= 1)%Q -> (0 <= q ^ 10 <= 1)%Q.
Proof.
  intros H0 H1.
  assert (q ^ 10 == ((q * q) * (q * q)) * ((q * q) * (q * q)) * (q * q))%Q as -> by ring.
  assert (0 <= q * q <= 1)%Q as [A0 A1] by nra.
  assert (0 <= (q * q) * (q * q) <= 1)%Q as [B0 B1] by nra.
  assert (0 <= ((q * q) * (q * q)) * ((q * q) * (q * q)) <= 1)%Q as [C0 C1] by nra.
  nra.
Qed.

(** X17. With the reference power the code expects, a negative
    [txPowerLevel] or none (then -59), [calculateDistance] never prints a
    distance above 1000 m, whatever [Math.pow] returns for the exponent
    7.7095: the result is Unknown or a number of metres that [parseFloat]
    reads as at most 1000. *)
Theorem distance_is_bounded_for_negative_txPower (pow : Q -> Q) (rssi txPower : option Z) :
  match txPower with
  | Some tx => tx < 0
  | None => True
  end ->
  let result := calculateDistance pow rssi txPower in
  result = "Unknown"
  \/ exists distance,
       result = distance +:+ " m"
       /\ greaterThan (parseFloat distance) 1000 = false.
Proof.
  intros Htx result. unfold result, calculateDistance.
  destruct rssi as [r|]; [|by left].
  destruct (Z.eqb_spec r 0) as [Hr0|Hr0]; [by left|].
  set (tx := default (-59) txPower).
  assert (tx < 0) as Hneg by (unfold tx; destruct txPower; simpl; lia).
  cbv zeta.
  destruct (Z.ltb_spec r (-100)) as [Hlow|Hlow]; [by left|].
  destruct (Z.gtb_spec r 0) as [Hhigh|Hhigh]; [by left|]. simpl orb. cbv iota.
  unfold divide. destruct (Z.eqb_spec tx 0) as [Htx0|Htx0]; [lia|].
  set (q := (inject_Z r / inject_Z tx)%Q).
  assert (0 <= q)%Q as Hq0 by (apply ratio_of_negatives; lia).
  destruct (lessThan (FFin q) 1) eqn:Hlt.
  - right. eexists. split; [reflexivity|].
    simpl in Hlt. apply negb_true_iff in Hlt.
    assert (q <= 1)%Q as Hq1.
    { destruct (Qlt_le_dec q 1) as [Hq|Hq]; [by apply Qlt_le_weak|].
      apply Qle_bool_iff in Hq. congruence. }
    destruct (tenth_power_below_one q Hq0 Hq1) as [Hp0 Hp1].
    unfold pow10, toFixed2.
    assert (Qle_bool 0 (q ^ 10) = true) as -> by (by apply Qle_bool_iff).
    simpl negb. cbv iota.
    generalize dependent (q ^ 10)%Q. intros x Hx0 Hx1.
    set (n := Qfloor (Qabs x * 100 + (1 # 2))).
    assert (0 <= n <= 100) as Hn.
    { assert (Qabs x == x)%Q as Habs by (by apply Qabs_pos).
      assert (Qfloor (1 # 2) <= n)%Z as Hlo by (apply Qfloor_resp_le; lra).
      assert (n <= Qfloor (100 + (1 # 2)))%Z as Hhi by (apply Qfloor_resp_le; lra).
      change (Qfloor (1 # 2)) with 0 in Hlo.
      change (Qfloor (100 + (1 # 2))) with 100 in Hhi. lia. }
    pose proof (short_distance_table (Z.to_nat n) ltac:(lia)) as Ht.
    simpl in Ht. rewrite Z2Nat.id in Ht by lia. exact Ht.
  - destruct (greaterThan (parseFloat (toFixed2 (powerLaw pow (FFin q)))) 1000) eqn:Hgt;
      [by left|].
    right. eexists. split; [reflexivity | exact Hgt].
Qed.

Lemma distance_is_bounded_for_negative_txPower_witness :
  (-59 < 0)
  /\ calculateDistance (fun q => q * q * q * q * q * q * q * q)%Q (Some (-70)) (Some (-59))
     = "3.64 m"
  /\ greaterThan (parseFloat "3.64") 1000 = false.
Proof.
  split; [lia|].
  destruct (distance_is_bounded_for_negative_txPower
              (fun q => q * q * q * q * q * q * q * q)%Q (Some (-70)) (Some (-59))
              ltac:(simpl; lia)) as [H | (distance & H & Hb)].
  - vm_compute in H. discriminate H.
  - split; [vm_compute; reflexivity | reflexivity].
Defined.
